(** * node-manager: the MindReader pipeline, the start gate, the backup
      registry, the backup schedule and the archivers.

    Embedded from the source:
    - [mindreader/gator.go]       ([BlockNumberGate], [pass])
    - [mindreader/mindreader.go]  ([ReadFlow], [consumeReadFlow],
                                   [readOneMessage], [alwaysUploadFiles],
                                   [LogLine], [Close], and the
                                   [OnTerminating] hook that
                                   [NewMindReaderPlugin] registers)
    - the [operator] package      ([BackupModule], [BackupSchedule],
                                   [RegisterBackupModule],
                                   [RegisterBackupSchedule],
                                   [selectBackupModule],
                                   [selectRestoreModule], [restorable],
                                   [NewBackupSchedule])
    - [mindreader/archiver_selector_test.go] (the table of
                                   [TestArchiverSelector], [genBlocks])
    - [mindreader/mindreader_test.go] ([toBlockNum])

    Written after the specification, their source files being absent: the
    one-block archiver, the merge archiver and the archiver selector, held
    against the table of [TestArchiverSelector] where the specification
    and that test differ.

    Unsigned 64-bit quantities (block numbers) are values of [N]; the source
    only compares them.  Go's signed [int] and [time.Duration] are values of
    [Z], the conversion from [uint64] to [int] with its wrap-around written
    out.  Go maps are [gmap]s. *)

From Stdlib Require Import ZArith NArith Lia.
From stdpp Require Import base option list strings gmap fin_maps pretty.

Local Open Scope string_scope.
Local Open Scope list_scope.

(** ** Go errors and results *)

(** The error values the embedded code creates or inspects: [io.EOF], an
    opaque error carrying a message (whatever a collaborator returns), and
    [fmt.Errorf] with a [%w] verb, which keeps the wrapped cause
    ([wrapNil] when the wrapped value is [nil]). *)
Inductive error : Type :=
| EOF
| errorString (msg : string)
| wrapError (format : string) (cause : error)
| wrapNil (format : string).

(** [err == io.EOF]: identity with the sentinel, so a wrapped [EOF] differs. *)
Definition is_EOF (err : error) : bool :=
  match err with
  | EOF => true
  | _ => false
  end.

(** A Go [(T, error)] return of which exactly one side is meaningful. *)
Inductive result (A : Type) : Type :=
| Ok (a : A)
| Err (err : error).
Arguments Ok {A} a.
Arguments Err {A} err.

(** ** Blocks *)

(** [bstream.Block], with the fields the repository reads. [Timestamp] is in
    nanoseconds. *)
Record Block : Type := mkBlock {
  Id : string;
  Number : N;
  PreviousId : string;
  Timestamp : Z;
  LibNum : N;
  PayloadBuffer : list N
}.

Definition Num (b : Block) : N := Number b.

(** A block that only carries a number, like the ones of the tests. *)
Definition blockN (n : N) : Block :=
  {| Id := ""; Number := n; PreviousId := ""; Timestamp := 0;
     LibNum := 0; PayloadBuffer := [] |}.

(** ** mindreader/gator.go *)

Module Gator.

Record BlockNumberGate : Type := mkGate {
  passed : bool;
  blockNum : N
}.

Definition NewBlockNumberGate (blockNum : N) : BlockNumberGate :=
  {| passed := false; blockNum := blockNum |}.

(** [pass] mutates the receiver: the new gate is returned next to the
    answer. *)
Definition pass (g : BlockNumberGate) (block : Block)
  : bool * BlockNumberGate :=
  if passed g then (true, g)
  else
    let g' := {| passed := (blockNum g <=? Num block)%N;
                 blockNum := blockNum g |} in
    (passed g', g').

(** The answers of successive calls of [pass] on one gate. *)
Fixpoint passes (g : BlockNumberGate) (bs : list Block) : list bool :=
  match bs with
  | [] => []
  | b :: bs' => let '(r, g') := pass g b in r :: passes g' bs'
  end.

End Gator.

(** ** mindreader/mindreader.go *)

Module MindReader.
Import Gator.

(** The embedded [*shutter.Shutter] (an external library): the first
    [Shutdown] wins, later ones return at once.  [cause] is the error of
    the winning call ([None] for [nil]).  The winning call sets the
    termination signal and then runs the [OnTerminating] hooks in the
    goroutine of its caller; whether the plugin has one is a field of the
    plugin (see [onTerminating]), and [Shutdown] below runs it. *)
Record Shutter : Type := mkShutter {
  terminating : bool;
  cause : option error
}.

Definition shutterNew : Shutter := {| terminating := false; cause := None |}.

Definition shutterShutdown (err : option error) (s : Shutter) : Shutter :=
  if terminating s then s else {| terminating := true; cause := err |}.

(** What the plugin does to the outside, in program order.  Logging is
    left out. *)
Inductive Event : Type :=
| EvSetMaintenance
| EvHeadBlockUpdate (num : N) (id : string) (time : Z)
| EvSend (b : Block)
| EvShutdown (err : option error)
| EvGoShutdown (err : option error)
| EvStoreBlock (b : Block)
| EvContinuityWrite (num : N)
| EvPushBlock (b : Block)
| EvWaitForAllFilesToUpload
| EvCloseReadFlowDone
| EvGoConsumeReadFlow
| EvGoAlwaysUploadFiles
| EvStopBlockReach.


Section Plugin.

(** The collaborators are interfaces in the source; each is a state
    machine here, of which nothing is assumed. *)
Context {Obj ArchSt CheckSt ServSt : Type}.
Variable storeBlock : ArchSt -> Block -> ArchSt * option error.
Variable waitForAllFilesToUpload : ArchSt -> ArchSt.
Variable continuityWrite : CheckSt -> N -> CheckSt * option error.
Variable pushBlock : ServSt -> Block -> ServSt * option error.

(** The [MindReaderPlugin] struct.  Nil-able fields are options;
    [headBlockUpdateFunc] and the callbacks [setMaintenanceFunc] and
    [stopBlockReachFunc] only matter through their calls, which go to
    [events].  The [gator] is the gate of [gator.go], the one
    implementation at hand.  The console reader is represented by what its
    [Read] returns (see [ReadInput]); the pipe writer, the logger, the
    channel capacity and [consumeReadFlowDone] (closed by
    [EvCloseReadFlowDone]) have no field.  [onTerminating] tells whether
    the shutter holds the hook that [NewMindReaderPlugin] registers with
    [OnTerminating], the only one of this package: it calls
    [setMaintenanceFunc], waits for [consumeReadFlowDone] and, with a stop
    block, calls [stopBlockReachFunc].  A plugin built by
    [newMindReaderPlugin] alone, as in the tests, has none. *)
Record MindReaderPlugin : Type := mkPlugin {
  shutter : Shutter;
  onTerminating : bool;
  continuityChecker : option CheckSt;
  transformer : Obj -> result Block;
  archiver : ArchSt;
  gator : BlockNumberGate;
  stopAtBlockNum : N;
  blockServer : option ServSt;
  headBlockUpdateFunc : bool;
  events : list Event
}.

Definition emit (e : Event) (p : MindReaderPlugin) : MindReaderPlugin :=
  {| shutter := shutter p; onTerminating := onTerminating p;
     continuityChecker := continuityChecker p;
     transformer := transformer p; archiver := archiver p;
     gator := gator p; stopAtBlockNum := stopAtBlockNum p;
     blockServer := blockServer p;
     headBlockUpdateFunc := headBlockUpdateFunc p;
     events := events p ++ [e] |}.

Definition setShutter (s : Shutter) (p : MindReaderPlugin) : MindReaderPlugin :=
  {| shutter := s; onTerminating := onTerminating p;
     continuityChecker := continuityChecker p;
     transformer := transformer p; archiver := archiver p;
     gator := gator p; stopAtBlockNum := stopAtBlockNum p;
     blockServer := blockServer p;
     headBlockUpdateFunc := headBlockUpdateFunc p;
     events := events p |}.

Definition setGator (g : BlockNumberGate) (p : MindReaderPlugin) : MindReaderPlugin :=
  {| shutter := shutter p; onTerminating := onTerminating p;
     continuityChecker := continuityChecker p;
     transformer := transformer p; archiver := archiver p;
     gator := g; stopAtBlockNum := stopAtBlockNum p;
     blockServer := blockServer p;
     headBlockUpdateFunc := headBlockUpdateFunc p;
     events := events p |}.

Definition setArchiver (a : ArchSt) (p : MindReaderPlugin) : MindReaderPlugin :=
  {| shutter := shutter p; onTerminating := onTerminating p;
     continuityChecker := continuityChecker p;
     transformer := transformer p; archiver := a;
     gator := gator p; stopAtBlockNum := stopAtBlockNum p;
     blockServer := blockServer p;
     headBlockUpdateFunc := headBlockUpdateFunc p;
     events := events p |}.

Definition setContinuityChecker (c : CheckSt) (p : MindReaderPlugin) : MindReaderPlugin :=
  {| shutter := shutter p; onTerminating := onTerminating p;
     continuityChecker := Some c;
     transformer := transformer p; archiver := archiver p;
     gator := gator p; stopAtBlockNum := stopAtBlockNum p;
     blockServer := blockServer p;
     headBlockUpdateFunc := headBlockUpdateFunc p;
     events := events p |}.

Definition setBlockServer (s : ServSt) (p : MindReaderPlugin) : MindReaderPlugin :=
  {| shutter := shutter p; onTerminating := onTerminating p;
     continuityChecker := continuityChecker p;
     transformer := transformer p; archiver := archiver p;
     gator := gator p; stopAtBlockNum := stopAtBlockNum p;
     blockServer := Some s;
     headBlockUpdateFunc := headBlockUpdateFunc p;
     events := events p |}.

Definition setOnTerminating (h : bool) (p : MindReaderPlugin) : MindReaderPlugin :=
  {| shutter := shutter p; onTerminating := h;
     continuityChecker := continuityChecker p;
     transformer := transformer p; archiver := archiver p;
     gator := gator p; stopAtBlockNum := stopAtBlockNum p;
     blockServer := blockServer p;
     headBlockUpdateFunc := headBlockUpdateFunc p;
     events := events p |}.

Definition IsTerminating (p : MindReaderPlugin) : bool :=
  terminating (shutter p).

(** Whether a [p.Shutdown(err)] made now runs the hook: it is the first
    one, and the hook is registered.  The call then waits in the hook for
    [consumeReadFlowDone]. *)
Definition ShutdownWaits (p : MindReaderPlugin) : bool :=
  negb (IsTerminating p) && onTerminating p.

(** [p.Shutdown(err)] called in place, as far as it gets without another
    goroutine: to its return if it runs no hook, and else to the wait of
    the hook, after the signal is set and [setMaintenanceFunc] called. *)
Definition Shutdown (err : option error) (p : MindReaderPlugin) : MindReaderPlugin :=
  let p' := setShutter (shutterShutdown err (shutter p))
                       (emit (EvShutdown err) p) in
  if ShutdownWaits p then emit EvSetMaintenance p' else p'.

(** The rest of a [p.Shutdown(err)] that [ShutdownWaits], once
    [consumeReadFlowDone] is closed: the hook calls [stopBlockReachFunc]
    if there is a stop block (which [NewMindReaderPlugin] also stores in
    [stopAtBlockNum]), and the call returns. *)
Definition afterReadFlowDone (p : MindReaderPlugin) : MindReaderPlugin :=
  if (stopAtBlockNum p =? 0)%N then p else emit EvStopBlockReach p.

(** [p.Shutdown(err)] from the call to its return, in a goroutine other
    than the consume task: a hook that runs waits there until the consume
    task has closed [consumeReadFlowDone]. *)
Definition ShutdownAndWait (err : option error) (p : MindReaderPlugin)
  : MindReaderPlugin :=
  if ShutdownWaits p then afterReadFlowDone (Shutdown err p)
  else Shutdown err p.

(** [fmt.Errorf("unable to transform console read obj to bstream.Block: %w", err)] *)
Definition transformErr (e : error) : error :=
  wrapError "unable to transform console read obj to bstream.Block: %w" e.

(** *** readOneMessage

    [rd] is what [p.consoleReader.Read()] returns; [blocks] is the
    channel, oldest block first.  A send appends: the wait for room in a
    full channel is not modelled. *)
Definition readOneMessage (p : MindReaderPlugin) (rd : result Obj)
    (blocks : list Block)
  : option error * MindReaderPlugin * list Block :=
  match rd with
  | Err err => (Some err, p, blocks)
  | Ok obj =>
    match transformer p obj with
    | Err err =>
      (Some (transformErr err), p, blocks)
    | Ok block =>
      let '(ok, g) := pass (gator p) block in
      let p := setGator g p in
      if negb ok then (None, p, blocks)
      else
        let p := if headBlockUpdateFunc p
                 then emit (EvHeadBlockUpdate (Num block) (Id block)
                                              (Timestamp block)) p
                 else p in
        let blocks := blocks ++ [block] in
        let p := emit (EvSend block) p in
        let p := if negb (stopAtBlockNum p =? 0)%N
                    && (stopAtBlockNum p <=? Num block)%N
                    && negb (IsTerminating p)
                 then emit (EvGoShutdown None) p
                 else p in
        (None, p, blocks)
    end
  end.

(** *** ReadFlow

    One item per thing the read task observes: a return of
    [consoleReader.Read()], or a [Shutdown] that another goroutine
    makes meanwhile (the one started by [go p.Shutdown(nil)] included):
    it sets the signal, and what its hook does is not an event of this
    task. *)
Inductive ReadInput : Type :=
| ConsoleRead (rd : result Obj)
| OtherShutdown (err : option error).


Inductive FlowStatus : Type :=
| Returned     (* the function returned *)
| Running      (* the inputs are used up, the loop is still waiting *)
| Blocked.     (* the goroutine waits in the hook of its own [Shutdown] *)

Fixpoint readLoop (ins : list ReadInput) (p : MindReaderPlugin)
    (blocks : list Block)
  : FlowStatus * MindReaderPlugin * list Block :=
  match ins with
  | [] => (Running, p, blocks)
  | OtherShutdown err :: ins' =>
    readLoop ins' (setShutter (shutterShutdown err (shutter p)) p) blocks
  | ConsoleRead rd :: ins' =>
    let '(err, p, blocks) := readOneMessage p rd blocks in
    match err with
    | Some e =>
      if is_EOF e then (Returned, p, blocks)
      else readLoop ins' (emit EvSetMaintenance p) blocks
    | None => readLoop ins' p blocks
    end
  end.

Definition ReadFlow (ins : list ReadInput) (p : MindReaderPlugin)
  : FlowStatus * MindReaderPlugin * list Block :=
  let p := emit EvGoConsumeReadFlow p in
  let p := emit EvGoAlwaysUploadFiles p in
  readLoop ins p [].

(** *** consumeReadFlow *)

(** [fmt.Errorf("archiver store block failed: %w", err)] *)
Definition storeErr (e : error) : error :=
  wrapError "archiver store block failed: %w" e.

(** [fmt.Errorf("failed writing to blocks server handler: %w", err)] *)
Definition pushErr (e : error) : error :=
  wrapError "failed writing to blocks server handler: %w" e.

Inductive LoopCtl : Type :=
| Continue     (* next iteration of the [for] *)
| Return       (* [return] *)
| Stuck.       (* [p.Shutdown] does not return *)

(** How the loop leaves a [p.Shutdown(...)] followed by [return].  The
    hook, if it runs, waits for [consumeReadFlowDone], which nothing but
    the deferred function of [consumeReadFlow] closes, and that one runs
    only when [consumeReadFlow] returns: the call does not come back. *)
Definition afterShutdown (p : MindReaderPlugin) : LoopCtl :=
  if ShutdownWaits p then Stuck else Return.

(** The body of [case block := <-blocks]. *)
Definition consumeBlock (p : MindReaderPlugin) (block : Block)
  : LoopCtl * MindReaderPlugin :=
  let '(a, err) := storeBlock (archiver p) block in
  let p := emit (EvStoreBlock block) (setArchiver a p) in
  match err with
  | Some e =>
    (afterShutdown p, Shutdown (Some (storeErr e)) p)
  | None =>
    let '(skip, p) :=
      match continuityChecker p with
      | Some c =>
        let '(c', err) := continuityWrite c (Num block) in
        let p := emit (EvContinuityWrite (Num block))
                      (setContinuityChecker c' p) in
        match err with
        | Some _ => (true, emit EvSetMaintenance p)
        | None => (false, p)
        end
      | None => (false, p)
      end in
    if skip then (Continue, p)
    else
      match blockServer p with
      | Some s =>
        let '(s', err) := pushBlock s block in
        let p := emit (EvPushBlock block) (setBlockServer s' p) in
        match err with
        | Some e =>
          (afterShutdown p, Shutdown (Some (pushErr e)) p)
        | None => (Continue, p)
        end
      | None => (Continue, p)
      end
  end.

(** The plugin when [PushBlock] is reached: the block is stored and,
    with a continuity checker, written there. *)
Definition beforePush (p : MindReaderPlugin) (block : Block)
  : MindReaderPlugin :=
  let p := emit (EvStoreBlock block)
                (setArchiver (fst (storeBlock (archiver p) block)) p) in
  match continuityChecker p with
  | Some c =>
    emit (EvContinuityWrite (Num block))
         (setContinuityChecker (fst (continuityWrite c (Num block))) p)
  | None => p
  end.

(** The deferred function, run when [consumeReadFlow] returns, and not
    while it is blocked. *)
Definition consumeDeferred (p : MindReaderPlugin) : MindReaderPlugin :=
  emit EvCloseReadFlowDone
    (emit EvWaitForAllFilesToUpload
       (setArchiver (waitForAllFilesToUpload (archiver p)) p)).

(** One item per thing that happens around the consume task: which case
    the [select] takes, a block the read task sends meanwhile, a
    [Shutdown] made by another goroutine (it sets the signal; its hook
    runs in that goroutine).  A case that is not ready
    (no termination signal, empty channel) cannot be taken: the item is
    passed over. *)
Inductive ConsumeInput : Type :=
| TakeTerminating
| TakeBlock
| Enqueued (b : Block)
| ShutdownElsewhere (err : option error).

Fixpoint consumeLoop (ins : list ConsumeInput) (p : MindReaderPlugin)
    (blocks : list Block)
  : FlowStatus * MindReaderPlugin * list Block :=
  match ins with
  | [] => (Running, p, blocks)
  | Enqueued b :: ins' => consumeLoop ins' p (blocks ++ [b])
  | ShutdownElsewhere err :: ins' =>
    consumeLoop ins' (setShutter (shutterShutdown err (shutter p)) p) blocks
  | TakeTerminating :: ins' =>
    if IsTerminating p then
      if (length blocks =? 0)%nat then (Returned, p, blocks)
      else consumeLoop ins' p blocks
    else consumeLoop ins' p blocks
  | TakeBlock :: ins' =>
    match blocks with
    | [] => consumeLoop ins' p blocks
    | block :: rest =>
      match consumeBlock p block with
      | (Return, p) => (Returned, p, rest)
      | (Stuck, p) => (Blocked, p, rest)
      | (Continue, p) => consumeLoop ins' p rest
      end
    end
  end.

Definition consumeReadFlow (ins : list ConsumeInput) (p : MindReaderPlugin)
    (blocks : list Block)
  : FlowStatus * MindReaderPlugin * list Block :=
  let '(st, p, blocks) := consumeLoop ins p blocks in
  match st with
  | Returned => (Returned, consumeDeferred p, blocks)
  | Running => (Running, p, blocks)
  | Blocked => (Blocked, p, blocks)
  end.

End Plugin.
End MindReader.

(** ** The operator package: backup modules and schedules *)

Module Operator.

(** A value of Go's [uint32]. *)
Record uint32 : Type := mkUint32 {
  u32 : N;
  u32_range : (u32 <? 2 ^ 32)%N = true
}.

(** The [BackupModule] interface.  A Go value of this type may or may not
    also implement [RestorableBackupModule]: [Restore] is present when it
    does.  The effects of the methods on the outside are not modelled. *)
Record BackupModule : Type := mkBackupModule {
  Backup : uint32 -> result string;
  RequiresStop : bool;
  Restore : option (string -> option error)
}.

(** The call [mod.Backup(n)] for a number [n]: there is one only when [n]
    is a value of the parameter's type. *)
Definition backupCall (m : BackupModule) (n : N) : option (result string) :=
  match (n <? 2 ^ 32)%N as b return (n <? 2 ^ 32)%N = b -> _ with
  | true => fun H => Some (Backup m {| u32 := n; u32_range := H |})
  | false => fun _ => None
  end eq_refl.

(** The [RestorableBackupModule] interface: a [BackupModule] with
    [Restore]. *)
Record RestorableBackupModule : Type := mkRestorable {
  module : BackupModule;
  restore : string -> option error
}.

(** The type assertion [v.(RestorableBackupModule)]. *)
Definition asRestorable (v : BackupModule) : option RestorableBackupModule :=
  match Restore v with
  | Some r => Some {| module := v; restore := r |}
  | None => None
  end.

Record BackupSchedule : Type := mkBackupSchedule {
  BlocksBetweenRuns : Z;           (* int *)
  TimeBetweenRuns : Z;             (* time.Duration, nanoseconds *)
  RequiredHostnameMatch : string;
  BackuperName : string
}.

(** *** strconv.ParseUint(s, 10, 64)

    The Go standard library function at base 10 and 64 bits: the empty
    string and any character that is not a decimal digit are syntax
    errors, a value above [maxUint64] is a range error. *)
Definition maxUint64 : N := 2 ^ 64 - 1.

Definition digitOf (c : Ascii.ascii) : option N :=
  let n := Ascii.N_of_ascii c in
  if (48 <=? n)%N && (n <=? 57)%N then Some (n - 48)%N else None.

Definition errSyntax : error := errorString "invalid syntax".
Definition errRange : error := errorString "value out of range".

Fixpoint parseUintFrom (n : N) (s : string) : result N :=
  match s with
  | EmptyString => Ok n
  | String c s' =>
    match digitOf c with
    | None => Err errSyntax
    | Some d =>
      if (maxUint64 / 10 + 1 <=? n)%N then Err errRange
      else
        let n1 := (n * 10 + d)%N in
        if (maxUint64 <? n1)%N then Err errRange
        else parseUintFrom n1 s'
    end
  end.

Definition ParseUint (s : string) : result N :=
  if String.eqb s "" then Err errSyntax else parseUintFrom 0 s.

(** The conversion [int(u)] of a [uint64] on a platform whose [int] has 64
    bits: the same bit pattern read as two's complement. *)
Definition maxInt : Z := 2 ^ 63 - 1.

Definition intOfUint64 (u : N) : Z :=
  let z := Z.of_N u in
  if (z <=? maxInt)%Z then z else (z - 2 ^ 64)%Z.

(** [time.Minute], in nanoseconds. *)
Definition Minute : Z := 60 * 1000000000.

Section Operator.

(** [time.ParseDuration] of the Go standard library, left abstract. *)
Variable ParseDuration : string -> result Z.

(** The order in which a [for … range] visits a map: some enumeration
    of its entries, which Go does not fix. *)
Variable rangeOrder : forall A : Type, gmap string A -> list (string * A).

Definition NewBackupSchedule
    (freqBlocks freqTime requiredHostname backuperName : string)
  : result BackupSchedule :=
  if negb (String.eqb freqBlocks "") then
    match ParseUint freqBlocks with
    | Err err =>
      Err (wrapError
             "invalid value for freq_block in backup schedule (err: %w)"
             err)
    | Ok freqUint =>
      if (freqUint =? 0)%N then
        Err (wrapNil
               "invalid value for freq_block in backup schedule (err: %w)")
      else
        Ok {| BlocksBetweenRuns := intOfUint64 freqUint;
              TimeBetweenRuns := 0;
              RequiredHostnameMatch := requiredHostname;
              BackuperName := backuperName |}
    end
  else if negb (String.eqb freqTime "") then
    match ParseDuration freqTime with
    | Err err =>
      Err (wrapError
             "invalid value for freq_time in backup schedule(duration: %s, err: %w)"
             err)
    | Ok d =>
      if (d <? Minute)%Z then
        Err (wrapNil
               "invalid value for freq_time in backup schedule(duration: %s, err: %w)")
      else
        Ok {| BlocksBetweenRuns := 0;
              TimeBetweenRuns := d;
              RequiredHostnameMatch := requiredHostname;
              BackuperName := backuperName |}
    end
  else Err (errorString "schedule created without any frequency value").

(** [for k := range mods { modNames = append(modNames, k) }] *)
Definition modNames {A : Type} (mods : gmap string A) : list string :=
  (rangeOrder A mods).*1.

Definition selectBackupModule (mods : gmap string BackupModule)
    (optionalName : string) : result BackupModule :=
  if (size mods =? 0)%nat then
    Err (errorString "no registered backup modules")
  else if negb (String.eqb optionalName "") then
    match mods !! optionalName with
    | None => Err (errorString ("invalid backup module: " +:+ optionalName))
    | Some chosen => Ok chosen
    end
  else if (1 <? size mods)%nat then
    Err (errorString
           ("more than one module registered, and none specified ("
              +:+ String.concat "," (modNames mods) +:+ ")"))
  else
    match rangeOrder _ mods with
    | (_, mod_) :: _ => Ok mod_
    | [] => Err (errorString "impossible path")
    end.

Definition restorable (in_ : gmap string BackupModule)
  : gmap string RestorableBackupModule :=
  foldl (fun out '(k, v) =>
           match asRestorable v with
           | Some rest => <[k := rest]> out
           | None => out
           end)
        ∅ (rangeOrder _ in_).

Definition selectRestoreModule (choices : gmap string BackupModule)
    (optionalName : string) : result RestorableBackupModule :=
  let mods := restorable choices in
  if (size mods =? 0)%nat then
    Err (errorString
           "none of the registered backup modules support 'restore'")
  else if negb (String.eqb optionalName "") then
    match mods !! optionalName with
    | None =>
      Err (errorString
             ("invalid restorable backup module: " +:+ optionalName))
    | Some chosen => Ok chosen
    end
  else if (1 <? size mods)%nat then
    Err (errorString
           ("more than one restorable module registered, and none specified ("
              +:+ String.concat "," (modNames mods) +:+ ")"))
  else
    match rangeOrder _ mods with
    | (_, mod_) :: _ => Ok mod_
    | [] => Err (errorString "impossible path")
    end.

End Operator.

(** What the selection helpers promise, for a selector [select] over the
    modules [mods]: an error on an empty registry; the named module, or an
    error if there is none of that name; without a name, an error whose
    message lists every registered name once if there are several modules,
    and the module if it is the only one. *)
Definition selects {A : Type} (select : string -> result A)
    (mods : gmap string A) : Prop :=
  (mods = ∅ -> forall name, exists e, select name = Err e)
  /\ (forall name m, name <> "" -> mods !! name = Some m ->
                     select name = Ok m)
  /\ (forall name, name <> "" -> mods !! name = None ->
                   exists e, select name = Err e)
  /\ ((1 < size mods)%nat ->
      exists prefix names,
        select "" = Err (errorString
                           (prefix +:+ String.concat "," names +:+ ")"))
        /\ NoDup names
        /\ forall k, k ∈ names <-> is_Some (mods !! k))
  /\ (forall k m, mods = {[k := m]} -> select "" = Ok m).

End Operator.

(** ** The archivers

    The repository's one-block archiver, merge archiver and archiver
    selector are exercised by [mindreader/archiver_selector_test.go], but
    their own source files are not among the files embedded above.  Their
    definitions below follow the written specification of these components
    (sections 4.E, 4.F and 4.G). *)

Module Archiver.

Definition Second : Z := 1000000000.
Definition Hour : Z := 3600 * Second.

(** [genBlocks] of [archiver_selector_test.go]: block [num] is stamped one
    hour before [now] plus [num] seconds. *)
Definition genBlock (now : Z) (num : N) : Block :=
  {| Id := ""; Number := num; PreviousId := "";
     Timestamp := now - Hour + Second * Z.of_N num;
     LibNum := 0; PayloadBuffer := [1%N] |}.

Definition genBlocks (now : Z) (nums : list N) : list Block :=
  map (genBlock now) nums.

(** Modelled from the spec: the state of the one-block archiver, whose
    source is missing: the files written so far, one block each, and the
    stop block (0 for none). *)
Record OneBlockArchiver : Type := mkOneBlock {
  oneStopBlockNum : N;
  oneBlockFiles : list Block
}.

(** Modelled from the spec: [StoreBlock] of the missing one-block
    archiver (4.E): the block is written to a file of its own, and is
    silently dropped if [stopBlockNum > 0] and
    [block.number > stopBlockNum]. *)
Definition oneStoreBlock (a : OneBlockArchiver) (b : Block)
  : OneBlockArchiver * option error :=
  if (0 <? oneStopBlockNum a)%N && (oneStopBlockNum a <? Num b)%N
  then (a, None)
  else ({| oneStopBlockNum := oneStopBlockNum a;
           oneBlockFiles := oneBlockFiles a ++ [b] |}, None).

(** Modelled from the spec: the state of the missing merge archiver
    (4.F): the buffer (oldest block first), [currentBundleStart] (read
    only while the buffer is not empty), the stop block, the optional
    overflow archiver, and the bundles uploaded so far, each under its
    start number. *)
Record MergeArchiver : Type := mkMerge {
  buffer : list Block;
  currentBundleStart : N;
  mergeStopBlockNum : N;
  overflowArchiver : option OneBlockArchiver;
  uploaded : list (N * list Block)
}.

(** Modelled from the spec: the missing merge archiver drops its buffer
    ("buffer is discarded and reinitialized"), keeping what it uploaded. *)
Definition resetBuffer (m : MergeArchiver) : MergeArchiver :=
  {| buffer := []; currentBundleStart := currentBundleStart m;
     mergeStopBlockNum := mergeStopBlockNum m;
     overflowArchiver := overflowArchiver m;
     uploaded := uploaded m |}.

(** Modelled from the spec: the tail of the missing merge archiver's
    [StoreBlock] (4.F): "Append serialized block to buffer. If
    [block.number mod 100 == 99], upload the buffer as a single bundle
    keyed by [currentBundleStart], then reset the buffer." *)
Definition appendBlock (start : N) (m : MergeArchiver) (b : Block)
  : MergeArchiver :=
  let buf := buffer m ++ [b] in
  if (Num b mod 100 =? 99)%N then
    {| buffer := []; currentBundleStart := start;
       mergeStopBlockNum := mergeStopBlockNum m;
       overflowArchiver := overflowArchiver m;
       uploaded := uploaded m ++ [(start, buf)] |}
  else
    {| buffer := buf; currentBundleStart := start;
       mergeStopBlockNum := mergeStopBlockNum m;
       overflowArchiver := overflowArchiver m;
       uploaded := uploaded m |}.

(** Modelled from the spec: [StoreBlock] of the missing merge archiver
    (4.F).  A block beyond the stop block goes to the overflow archiver
    when there is one and is dropped otherwise; any other block is
    appended, and the bundle of an empty buffer starts at the boundary at
    or below its first block ("bundle key contains the aligned start block
    number").  The two requirements of 4.F, a first block on a boundary
    and no gap, are left out: [TestArchiverSelector] has the buffer start
    at block 101 ("holes in the stream") and has block 199 follow block
    102 in one bundle ("from merged to live young blocks"). *)
Definition mergeStoreBlock (m : MergeArchiver) (b : Block)
  : MergeArchiver * option error :=
  if (0 <? mergeStopBlockNum m)%N && (mergeStopBlockNum m <? Num b)%N then
    match overflowArchiver m with
    | Some o =>
      let '(o', err) := oneStoreBlock o b in
      ({| buffer := buffer m; currentBundleStart := currentBundleStart m;
          mergeStopBlockNum := mergeStopBlockNum m;
          overflowArchiver := Some o';
          uploaded := uploaded m |}, err)
    | None => (m, None)
    end
  else
    match buffer m with
    | [] => (appendBlock (100 * (Num b / 100)) m b, None)
    | _ :: _ => (appendBlock (currentBundleStart m) m b, None)
    end.

(** Modelled from the spec: [WaitForAllFilesToUpload] of the missing merge
    archiver (4.F): "if the buffer is non-empty and not on a complete
    boundary, it remains buffered (not persisted). If complete, flush
    synchronously."  The buffer is complete when its last block is the
    last of a range. *)
Definition mergeWaitForAllFilesToUpload (m : MergeArchiver) : MergeArchiver :=
  match last (buffer m) with
  | Some lastBuffered =>
    if (Num lastBuffered mod 100 =? 99)%N then
      {| buffer := []; currentBundleStart := currentBundleStart m;
         mergeStopBlockNum := mergeStopBlockNum m;
         overflowArchiver := overflowArchiver m;
         uploaded := uploaded m ++ [(currentBundleStart m, buffer m)] |}
    else m
  | None => m
  end.

Inductive Mode : Type :=
| OneBlock
| Merging.

(** Modelled from the spec: the state of the missing archiver selector
    (4.G): the mode, [lastSeenNumber] (unset at first),
    [mergeThresholdBlockAge] and the two archivers. *)
Record ArchiverSelector : Type := mkSelector {
  mode : Mode;
  lastSeenNumber : option N;
  mergeThresholdBlockAge : Z;
  oneblockArchiver : OneBlockArchiver;
  mergeArchiver : MergeArchiver
}.

(** Modelled from the spec: the missing selector's notion of age (4.G):
    "a block is old iff [now - block.timestamp >= mergeThresholdBlockAge]". *)
Definition isOld (now : Z) (s : ArchiverSelector) (b : Block) : bool :=
  (mergeThresholdBlockAge s <=? now - Timestamp b)%Z.

(** Modelled from the spec: the block at which the missing selector may
    enter merging.  For the first block of a run it is the condition of
    4.G, [b.number mod 100 == 0].  After other blocks it is the first
    block at or past a boundary that the stream has not reached before:
    in [TestArchiverSelector] merging begins at block 100 after 98 and 99,
    and at block 101 after 98 and 99 when 100 is missing, while blocks 98
    and 99, as old as these, stay single. *)
Definition startsBundle (lastSeen : option N) (b : Block) : bool :=
  match lastSeen with
  | None => (Num b mod 100 =? 0)%N
  | Some l => (l / 100 <? Num b / 100)%N
  end.

(** Modelled from the spec: the missing selector forwards a block to its
    one-block archiver, in one-block mode from then on. *)
Definition toOneBlock (s : ArchiverSelector) (m : MergeArchiver) (b : Block)
  : ArchiverSelector * option error :=
  let '(o, err) := oneStoreBlock (oneblockArchiver s) b in
  ({| mode := OneBlock; lastSeenNumber := Some (Num b);
      mergeThresholdBlockAge := mergeThresholdBlockAge s;
      oneblockArchiver := o; mergeArchiver := m |}, err).

(** Modelled from the spec: the missing selector forwards a block to its
    merge archiver, in merging mode from then on. *)
Definition toMerge (s : ArchiverSelector) (b : Block)
  : ArchiverSelector * option error :=
  let '(m, err) := mergeStoreBlock (mergeArchiver s) b in
  ({| mode := Merging; lastSeenNumber := Some (Num b);
      mergeThresholdBlockAge := mergeThresholdBlockAge s;
      oneblockArchiver := oneblockArchiver s; mergeArchiver := m |}, err).

(** Modelled from the spec: the missing selector enters merging after
    one-block files (section 8, note on scenarios 5 and 7): the block "is
    persisted once as a one-block file AND begins the merge buffer". *)
Definition toBoth (s : ArchiverSelector) (b : Block)
  : ArchiverSelector * option error :=
  let '(o, err) := oneStoreBlock (oneblockArchiver s) b in
  match err with
  | Some e =>
    ({| mode := OneBlock; lastSeenNumber := Some (Num b);
        mergeThresholdBlockAge := mergeThresholdBlockAge s;
        oneblockArchiver := o; mergeArchiver := mergeArchiver s |}, Some e)
  | None =>
    toMerge {| mode := mode s; lastSeenNumber := lastSeenNumber s;
               mergeThresholdBlockAge := mergeThresholdBlockAge s;
               oneblockArchiver := o; mergeArchiver := mergeArchiver s |} b
  end.

(** Modelled from the spec: [StoreBlock] of the missing archiver selector,
    the decision rules of 4.G as far as the scenario table of section 8
    and [TestArchiverSelector] bear them out; [now] is the wall clock at
    the call.  In one-block mode an old block that [startsBundle] enters
    merging, also as a one-block file unless it is the first block of the
    run.  In merging mode a young block leaves it, the in-flight buffer
    being dropped without upload (section 8, note on scenario 8), and an
    old block goes to the merge archiver: the hole rule of 4.G is left
    out, the test keeping block 199 in the bundle of block 102. *)
Definition StoreBlock (now : Z) (s : ArchiverSelector) (b : Block)
  : ArchiverSelector * option error :=
  match mode s with
  | OneBlock =>
    if isOld now s b && startsBundle (lastSeenNumber s) b then
      match lastSeenNumber s with
      | Some _ => toBoth s b
      | None => toMerge s b
      end
    else toOneBlock s (mergeArchiver s) b
  | Merging =>
    if negb (isOld now s b) then
      toOneBlock s (resetBuffer (mergeArchiver s)) b
    else toMerge s b
  end.

(** Modelled from the spec: the missing selector as it starts ("mode
    initially one-block, [lastSeenNumber] initially unset"), with empty
    archivers. *)
Definition newSelector (threshold : Z) (oneStop mergeStop : N)
    (overflow : option OneBlockArchiver) : ArchiverSelector :=
  {| mode := OneBlock; lastSeenNumber := None;
     mergeThresholdBlockAge := threshold;
     oneblockArchiver := {| oneStopBlockNum := oneStop; oneBlockFiles := [] |};
     mergeArchiver := {| buffer := []; currentBundleStart := 0;
                         mergeStopBlockNum := mergeStop;
                         overflowArchiver := overflow;
                         uploaded := [] |} |}.

(** The selector after a sequence of calls, each with its clock reading. *)
Fixpoint storeAll (s : ArchiverSelector) (calls : list (Z * Block))
  : ArchiverSelector :=
  match calls with
  | [] => s
  | (now, b) :: calls' => storeAll (fst (StoreBlock now s b)) calls'
  end.



(** The block numbers [100k .. 100k+len-1]. *)
Definition rangeFrom (k : N) (len : nat) : list N :=
  map (fun i => (100 * k + N.of_nat i)%N) (seq 0 len).

(** The block numbers [100k .. 100k+99]. *)
Definition alignedRange (k : N) : list N := rangeFrom k 100.


(** A bundle goes out with the last block of a range: it ends with a
    block numbered [100k+99], under the key of an aligned start. *)
Definition closedBundle (bundle : N * list Block) : Prop :=
  (fst bundle mod 100 = 0)%N
  /\ exists b, last (snd bundle) = Some b /\ (Num b mod 100 = 99)%N.

(** What holds of a merge archiver between calls, whatever it was given:
    every uploaded bundle is closed, the buffer holds no last block of a
    range, and its start is aligned when it is not empty. *)
Definition mergeInv (m : MergeArchiver) : Prop :=
  Forall closedBundle (uploaded m)
  /\ Forall (fun b => (Num b mod 100 <> 99)%N) (buffer m)
  /\ (buffer m <> [] -> (currentBundleStart m mod 100 = 0)%N).



(** The table of [TestArchiverSelector] in [archiver_selector_test.go];
    one-block files are given by the number of their block, durations in
    nanoseconds. *)
Record TestCase : Type := mkTestCase {
  name : string;
  input : list N;
  mergeTimeThreshold : Z;
  expectUploadedMergedBlocks : list N;
  expectBufferedMergedBlocks : list N;
  expectOneBlocks : list N
}.

Definition tests : list TestCase :=
  [ {| name := "one block";
       input := [99%N]; mergeTimeThreshold := 999 * Hour;
       expectUploadedMergedBlocks := [];
       expectBufferedMergedBlocks := [];
       expectOneBlocks := [99%N] |};
    {| name := "one old block";
       input := [99%N]; mergeTimeThreshold := 60 * Second;
       expectUploadedMergedBlocks := [];
       expectBufferedMergedBlocks := [];
       expectOneBlocks := [99%N] |};
    {| name := "one boundary old block";
       input := [100%N]; mergeTimeThreshold := 60 * Second;
       expectUploadedMergedBlocks := [];
       expectBufferedMergedBlocks := [100%N];
       expectOneBlocks := [] |};
    {| name := "multiple old blocks starting on boundary";
       input := [100; 101; 102; 103]%N; mergeTimeThreshold := 60 * Second;
       expectUploadedMergedBlocks := [];
       expectBufferedMergedBlocks := [100; 101; 102; 103]%N;
       expectOneBlocks := [] |};
    {| name := "multiple old blocks traverse boundary";
       input := [98; 99; 100; 101; 102]%N; mergeTimeThreshold := 60 * Second;
       expectUploadedMergedBlocks := [];
       expectBufferedMergedBlocks := [100; 101; 102]%N;
       expectOneBlocks := [98; 99; 100]%N |};
    {| name := "multiple young blocks traverse boundary";
       input := [98; 99; 100; 101; 102]%N; mergeTimeThreshold := 999 * Hour;
       expectUploadedMergedBlocks := [];
       expectBufferedMergedBlocks := [];
       expectOneBlocks := [98; 99; 100; 101; 102]%N |};
    {| name := "holes in the stream";
       input := [98; 99; 101; 102]%N; mergeTimeThreshold := 60 * Second;
       expectUploadedMergedBlocks := [];
       expectBufferedMergedBlocks := [101; 102]%N;
       expectOneBlocks := [98; 99; 101]%N |};
    {| name := "from merged to live young blocks";
       input := [98; 99; 101; 102; 199; 200; 201]%N;
       mergeTimeThreshold := (3600 - 199) * Second;
       expectUploadedMergedBlocks := [101; 102; 199]%N;
       expectBufferedMergedBlocks := [];
       expectOneBlocks := [98; 99; 101; 200; 201]%N |} ].

(** The body of the test's loop on the modelled archivers, every call
    made at the clock reading [now]: the numbers of the uploaded merged
    blocks, of the buffered ones and of the one-block files. *)
Definition runTest (now : Z) (t : TestCase) : list N * list N * list N :=
  let s := storeAll (newSelector (mergeTimeThreshold t) 0 0 None)
                    (map (fun b => (now, b)) (genBlocks now (input t))) in
  (concat (map (fun bundle => map Num (snd bundle))
               (uploaded (mergeArchiver s))),
   map Num (buffer (mergeArchiver s)),
   map Num (oneBlockFiles (oneblockArchiver s))).

Definition expected (t : TestCase) : list N * list N * list N :=
  (expectUploadedMergedBlocks t, expectBufferedMergedBlocks t,
   expectOneBlocks t).

(** Whether the modelled archivers give what the test expects. *)
Definition reproduces (now : Z) (t : TestCase) : bool :=
  bool_decide (runTest now t = expected t).




End Archiver.

(** ** Sample collaborators

    Small stand-ins for the interfaces, on which the general statements
    below are tried out. *)

Module Sample.
Import Gator MindReader Operator.

(** An archiver that fails on block 13. *)
Definition storeBlock (a : unit) (b : Block) : unit * option error :=
  (tt, if (Num b =? 13)%N then Some (errorString "disk full") else None).

Definition waitForAllFilesToUpload (a : unit) : unit := a.

(** A continuity checker holding the highest number seen, which only
    takes the next one. *)
Definition continuityWrite (prior : N) (n : N) : N * option error :=
  if (n =? prior + 1)%N then (n, None)
  else (prior, Some (errorString "continuity broken")).

(** A block server that fails on block 7. *)
Definition pushBlock (s : unit) (b : Block) : unit * option error :=
  (tt, if (Num b =? 7)%N then Some (errorString "subscriber gone") else None).

(** A fresh plugin whose console reader yields blocks as they are. *)
Definition plugin (startBlockNum stopBlockNum : N) (checker : option N)
  : @MindReaderPlugin Block unit N unit :=
  {| shutter := shutterNew;
     onTerminating := false;
     continuityChecker := checker;
     transformer := Ok;
     archiver := tt;
     gator := NewBlockNumberGate startBlockNum;
     stopAtBlockNum := stopBlockNum;
     blockServer := Some tt;
     headBlockUpdateFunc := false;
     events := [] |}.

(** The same plugin as [NewMindReaderPlugin] leaves it, with its hook
    registered. *)
Definition hookedPlugin (startBlockNum stopBlockNum : N) (checker : option N)
  : @MindReaderPlugin Block unit N unit :=
  setOnTerminating true (plugin startBlockNum stopBlockNum checker).

Definition tarModule : BackupModule :=
  {| Backup := fun _ => Ok "backup.tar";
     RequiresStop := true;
     Restore := Some (fun _ => None) |}.

Definition snapshotModule : BackupModule :=
  {| Backup := fun _ => Ok "snapshot";
     RequiresStop := false;
     Restore := None |}.

(** A duration parser that knows one literal. *)
Definition ParseDuration (s : string) : result Z :=
  if String.eqb s "1m" then Ok Minute
  else Err (errorString "time: invalid duration").

(** One possible order of visit of a map. *)
Definition rangeOrder (A : Type) (m : gmap string A) : list (string * A) :=
  map_to_list m.

End Sample.

(** ** Reading the events and the inputs of the pipeline

    What a run of the read task or of the consume task did, read off the
    events it left, and what its inputs held. *)

Module Trace.
Import Gator MindReader.

(** The blocks sent on the channel, in order. *)
Definition sentIn (evs : list Event) : list Block :=
  omap (fun ev => match ev with EvSend b => Some b | _ => None end) evs.

(** The calls of the head block updater, in order. *)
Definition headUpdatesIn (evs : list Event) : list (N * string * Z) :=
  omap (fun ev => match ev with
                  | EvHeadBlockUpdate n i t => Some (n, i, t)
                  | _ => None
                  end) evs.

(** The blocks given to the archiver, in order. *)
Definition storedIn (evs : list Event) : list Block :=
  omap (fun ev => match ev with EvStoreBlock b => Some b | _ => None end) evs.

(** The blocks given to the block server, in order. *)
Definition pushedIn (evs : list Event) : list Block :=
  omap (fun ev => match ev with EvPushBlock b => Some b | _ => None end) evs.

(** The numbers given to the continuity checker, in order. *)
Definition checkedIn (evs : list Event) : list N :=
  omap (fun ev => match ev with
                  | EvContinuityWrite n => Some n
                  | _ => None
                  end) evs.

(** The shutdowns started with [go], in order. *)
Definition goShutdownsIn (evs : list Event) : list (option error) :=
  omap (fun ev => match ev with EvGoShutdown e => Some e | _ => None end) evs.

(** The shutdowns called in place, in order. *)
Definition shutdownsIn (evs : list Event) : list (option error) :=
  omap (fun ev => match ev with EvShutdown e => Some e | _ => None end) evs.

(** How many times the maintenance callback was called. *)
Definition maintenanceIn (evs : list Event) : nat :=
  length (omap (fun ev => match ev with
                          | EvSetMaintenance => Some tt
                          | _ => None
                          end) evs).

(** How many times the deferred function of [consumeReadFlow] ran: each
    run waits for the uploads and closes [consumeReadFlowDone]. *)
Definition deferredIn (evs : list Event) : nat :=
  length (omap (fun ev => match ev with
                          | EvWaitForAllFilesToUpload => Some tt
                          | EvCloseReadFlowDone => Some tt
                          | _ => None
                          end) evs).

(** The blocks of [bs] from the first one whose number is at least [t]. *)
Fixpoint fromFirst (t : N) (bs : list Block) : list Block :=
  match bs with
  | [] => []
  | b :: bs' => if (t <=? Num b)%N then b :: bs' else fromFirst t bs'
  end.

(** What a gate lets through of the blocks [bs] shown to it in order. *)
Definition letThrough (g : BlockNumberGate) (bs : list Block) : list Block :=
  if passed g then bs else fromFirst (blockNum g) bs.

Section Inputs.
Context {Obj : Type}.

(** The blocks that [Read] and the transformer [tr] deliver before the
    first [io.EOF]. *)
Fixpoint readBlocks (tr : Obj -> result Block) (ins : list (@ReadInput Obj))
  : list Block :=
  match ins with
  | [] => []
  | OtherShutdown _ :: ins' => readBlocks tr ins'
  | ConsoleRead (Err e) :: ins' =>
    if is_EOF e then [] else readBlocks tr ins'
  | ConsoleRead (Ok obj) :: ins' =>
    match tr obj with
    | Ok b => b :: readBlocks tr ins'
    | Err _ => readBlocks tr ins'
    end
  end.

(** The messages that fail, in [Read] or in the transformer [tr], before
    the first [io.EOF]. *)
Fixpoint failedReads (tr : Obj -> result Block) (ins : list (@ReadInput Obj))
  : nat :=
  match ins with
  | [] => 0
  | OtherShutdown _ :: ins' => failedReads tr ins'
  | ConsoleRead (Err e) :: ins' =>
    if is_EOF e then 0 else S (failedReads tr ins')
  | ConsoleRead (Ok obj) :: ins' =>
    match tr obj with
    | Ok _ => failedReads tr ins'
    | Err _ => S (failedReads tr ins')
    end
  end.

End Inputs.

(** The blocks the read task sends while the consume task runs. *)
Definition enqueuedIn (ins : list ConsumeInput) : list Block :=
  omap (fun i => match i with Enqueued b => Some b | _ => None end) ins.

End Trace.

(** ** mindreader/mindreader.go: the uploader task, [LogLine] and [Close] *)

Module Lifecycle.
Import Gator MindReader.

(** The error of [io.Pipe] for a write after the pipe was closed. *)
Definition ErrClosedPipe : error := errorString "io: read/write on closed pipe".

(** The write side of the [io.Pipe] (Go standard library) that feeds the
    console reader: the chunks written so far, oldest first, and the error
    with which a [Write] now fails, if any: [ErrClosedPipe] once the writer
    is closed, and before that the reader's error if the read side was
    closed with one.  A [Write] is taken whole or not at all. *)
Record PipeWriter : Type := mkPipeWriter {
  written : list string;
  writeError : option error
}.

Definition pipeNew : PipeWriter := {| written := []; writeError := None |}.

(** [w.Write(data)] *)
Definition pipeWrite (data : string) (w : PipeWriter) : PipeWriter * option error :=
  match writeError w with
  | Some e => (w, Some e)
  | None => ({| written := written w ++ [data]; writeError := None |}, None)
  end.

(** [w.CloseWithError(err)], which always returns [nil]: once the writer
    is closed a [Write] fails with [ErrClosedPipe], whatever [err] is and
    whatever the read side was closed with. *)
Definition pipeCloseWithError (err : option error) (w : PipeWriter) : PipeWriter :=
  {| written := written w; writeError := Some ErrClosedPipe |}.

(** What else happens while the uploader task runs: the timer of its
    [select] fires, the [select] takes the termination signal (possible
    only once the plugin is terminating), or another goroutine makes a
    [Shutdown], which sets the signal. *)
Inductive UploadInput : Type :=
| TimerFires
| TakeTermination
| ShutdownMeanwhile (err : option error).

Section Tasks.
Context {Obj ArchSt CheckSt ServSt : Type}.
Variable uploadFiles : ArchSt -> ArchSt * option error.

Local Abbreviation Plugin := (@MindReaderPlugin Obj ArchSt CheckSt ServSt).

(** [p.archiver.uploadFiles()], an error of which is only logged. *)
Definition uploadOnce (p : Plugin) : Plugin :=
  setArchiver (fst (uploadFiles (archiver p))) p.

(** [alwaysUploadFiles] from its [select] on: the plugin, and how many
    more times [uploadFiles] is called. *)
Fixpoint uploadWait (ins : list UploadInput) (p : Plugin)
  : FlowStatus * Plugin * nat :=
  match ins with
  | [] => (Running, p, 0%nat)
  | ShutdownMeanwhile err :: ins' =>
    uploadWait ins' (setShutter (shutterShutdown err (shutter p)) p)
  | TakeTermination :: ins' =>
    if IsTerminating p then (Returned, p, 0%nat) else uploadWait ins' p
  | TimerFires :: ins' =>
    if IsTerminating p then (Returned, p, 0%nat)
    else
      let '(st, p', n) := uploadWait ins' (uploadOnce p) in (st, p', S n)
  end.

(** [alwaysUploadFiles]: the status, the plugin, and the number of calls
    of [uploadFiles]. *)
Definition alwaysUploadFiles (ins : list UploadInput) (p : Plugin)
  : FlowStatus * Plugin * nat :=
  if IsTerminating p then (Returned, p, 0%nat)
  else
    let '(st, p', n) := uploadWait ins (uploadOnce p) in (st, p', S n).

(** [LogLine]: the line and a newline go to the pipe; if the write fails
    the plugin is shut down with the error of the write.  The caller is
    not the consume task, so that a [Shutdown] that runs the hook returns
    once that task is done. *)
Definition LogLine (line : string) (wp : PipeWriter * Plugin)
  : PipeWriter * Plugin :=
  let '(w, err) := pipeWrite (line +:+ String (Ascii.ascii_of_nat 10) "")
                             (fst wp) in
  match err with
  | Some e => (w, ShutdownAndWait (Some e) (snd wp))
  | None => (w, snd wp)
  end.

(** [Close]: the writer is closed with [err], then the plugin is shut down
    with [err]. *)
Definition Close (err : option error) (wp : PipeWriter * Plugin)
  : PipeWriter * Plugin :=
  (pipeCloseWithError err (fst wp), ShutdownAndWait err (snd wp)).

(** [LogLine] called for each line in turn. *)
Definition logLines (lines : list string) (wp : PipeWriter * Plugin)
  : PipeWriter * Plugin :=
  foldl (fun wp line => LogLine line wp) wp lines.

(** How many inputs are firings of the timer. *)
Definition timersIn (ins : list UploadInput) : nat :=
  length (omap (fun i => match i with TimerFires => Some tt | _ => None end) ins).

(** No input is a shutdown by another goroutine. *)
Definition undisturbed (ins : list UploadInput) : bool :=
  forallb (fun i => match i with ShutdownMeanwhile _ => false | _ => true end) ins.

End Tasks.
End Lifecycle.

(** ** The operator package: registration *)

Module Registry.
Import Operator.

(** The two fields of the [Operator] struct that the registration methods
    use; the map is [nil] until the first registration. *)
Record Operator : Type := mkOperator {
  backupModules : option (gmap string BackupModule);
  backupSchedules : list BackupSchedule
}.

(** A fresh operator. *)
Definition newOperator : Operator :=
  {| backupModules := None; backupSchedules := [] |}.

(** The map as the selection helpers read it: a [nil] map reads as empty. *)
Definition modsOf (o : Operator) : gmap string BackupModule :=
  match backupModules o with
  | Some mods => mods
  | None => ∅
  end.

Section Registration.

(** How [fmt] renders a name under [%q] and the previous module under
    [%s] of its [reflect.Value]; both are left abstract. *)
Variable quote : string -> string.
Variable describe : BackupModule -> string.

Definition RegisterBackupModule (name : string) (mod_ : BackupModule)
    (o : Operator) : Operator * option error :=
  let mods := modsOf o in
  match mods !! name with
  | Some existing =>
    ({| backupModules := Some mods; backupSchedules := backupSchedules o |},
     Some (errorString
             ("backup module " +:+ quote name
                +:+ " is already registered, previous module type "
                +:+ describe existing)))
  | None =>
    ({| backupModules := Some (<[name := mod_]> mods);
        backupSchedules := backupSchedules o |}, None)
  end.

Definition RegisterBackupSchedule (sched : BackupSchedule) (o : Operator)
  : Operator :=
  {| backupModules := backupModules o;
     backupSchedules := backupSchedules o ++ [sched] |}.

(** [RegisterBackupModule] called for each pair in turn, the errors being
    left aside. *)
Definition registerAll (l : list (string * BackupModule)) (o : Operator)
  : Operator :=
  foldl (fun o '(name, mod_) => fst (RegisterBackupModule name mod_ o)) o l.

End Registration.
End Registry.

(** ** Decimal numerals *)

Module Decimal.
Import Operator.

Definition isDigit (c : Ascii.ascii) : bool :=
  match digitOf c with
  | Some _ => true
  | None => false
  end.

(** Every character is a decimal digit. *)
Fixpoint allDigits (s : string) : bool :=
  match s with
  | EmptyString => true
  | String c s' => isDigit c && allDigits s'
  end.

(** The number written by the digits of [s] after the digits that gave
    [acc]. *)
Fixpoint valueFrom (acc : N) (s : string) : N :=
  match s with
  | EmptyString => acc
  | String c s' =>
    valueFrom (acc * 10 + match digitOf c with Some d => d | None => 0 end)%N s'
  end.

(** The number a string of decimal digits writes. *)
Definition decimalValue (s : string) : N := valueFrom 0 s.

End Decimal.

(** ** mindreader/mindreader_test.go: block numbers in block ids *)

Module BlockId.

(** [fromHexChar] of [encoding/hex] (Go standard library): the value of a
    hexadecimal digit, in either case. *)
Definition fromHexChar (c : Ascii.ascii) : option N :=
  let n := Ascii.N_of_ascii c in
  if (48 <=? n)%N && (n <=? 57)%N then Some (n - 48)%N
  else if (97 <=? n)%N && (n <=? 102)%N then Some (n - 97 + 10)%N
  else if (65 <=? n)%N && (n <=? 70)%N then Some (n - 65 + 10)%N
  else None.

Definition ErrLength : error :=
  errorString "encoding/hex: odd length hex string".
Definition InvalidByteError : error :=
  errorString "encoding/hex: invalid byte".

(** [hex.DecodeString]: two digits give one byte, the first digit being
    the high half; a character that is no digit is reported before an odd
    length is. *)
Fixpoint DecodeString (s : string) : result (list N) :=
  match s with
  | EmptyString => Ok []
  | String p EmptyString =>
    match fromHexChar p with
    | None => Err InvalidByteError
    | Some _ => Err ErrLength
    end
  | String p (String q s') =>
    match fromHexChar p, fromHexChar q with
    | Some a, Some b =>
      match DecodeString s' with
      | Ok bytes => Ok (N.lor (N.shiftl a 4) b :: bytes)
      | Err e => Err e
      end
    | _, _ => Err InvalidByteError
    end
  end.

(** [binary.BigEndian.Uint32]; on fewer than four bytes the Go function
    panics, which [toBlockNum] never lets happen. *)
Definition Uint32 (b : list N) : N :=
  match b with
  | b0 :: b1 :: b2 :: b3 :: _ =>
    N.lor (N.lor (N.lor b3 (N.shiftl b2 8)) (N.shiftl b1 16)) (N.shiftl b0 24)
  | _ => 0%N
  end.

(** [toBlockNum] of the tests: the number in the first eight characters
    of a block id. *)
Definition toBlockNum (blockID : string) : N :=
  if (String.length blockID <? 8)%nat then 0%N
  else
    match DecodeString (String.substring 0 8 blockID) with
    | Err _ => 0%N
    | Ok bin => Uint32 bin
    end.

(** The number written by hexadecimal digits, the first one counting
    most. *)
Definition hexValue (digits : list N) : N :=
  foldl (fun acc d => (acc * 16 + d)%N) 0%N digits.

End BlockId.

(** ** More sample collaborators *)

Module MoreSamples.
Import Gator MindReader Lifecycle.

(** An upload that always fails. *)
Definition uploadFiles (a : unit) : unit * option error :=
  (tt, Some (errorString "store unavailable")).

(** The consume task is told to stop while one block is queued: it looks
    at the signal, takes the block, looks again. *)
Definition stopWithOneQueued : list ConsumeInput :=
  [ShutdownElsewhere None; TakeTerminating; TakeBlock; TakeTerminating].

(** A plugin with the hook of [NewMindReaderPlugin], and with neither
    continuity checker nor block server. *)
Definition bareHooked : @MindReaderPlugin Block unit N unit :=
  {| shutter := shutterNew;
     onTerminating := true;
     continuityChecker := None;
     transformer := Ok;
     archiver := tt;
     gator := NewBlockNumberGate 0;
     stopAtBlockNum := 0;
     blockServer := None;
     headBlockUpdateFunc := false;
     events := [] |}.

(** Three reads, the second of which fails. *)
Definition threeReads : list (@ReadInput Block) :=
  [ConsoleRead (Ok (blockN 1)); ConsoleRead (Err (errorString "broken pipe"));
   ConsoleRead (Ok (blockN 5))].

End MoreSamples.

(** * Properties *)

(** ** The start gate *)

Section GateFacts.
Import Gator.

Lemma pass_answer (g : BlockNumberGate) (b : Block) :
  fst (pass g b) = passed g || (blockNum g <=? Num b)%N.
Proof. unfold pass. destruct (passed g); reflexivity. Qed.

Lemma pass_passed (g : BlockNumberGate) (b : Block) :
  passed (snd (pass g b)) = fst (pass g b).
Proof. unfold pass. destruct (passed g) eqn:E; simpl; auto. Qed.

Lemma pass_blockNum (g : BlockNumberGate) (b : Block) :
  blockNum (snd (pass g b)) = blockNum g.
Proof. unfold pass. destruct (passed g); reflexivity. Qed.

Lemma passes_cons (g : BlockNumberGate) (b : Block) (bs : list Block) :
  passes g (b :: bs) = fst (pass g b) :: passes (snd (pass g b)) bs.
Proof. simpl. destruct (pass g b); reflexivity. Qed.

(** The answer of the [i]-th call on any gate: the gate was open at the
    start, or the block reaches the target, or an earlier call said yes. *)
Lemma passes_lookup (bs : list Block) :
  forall (g : BlockNumberGate) (i : nat) (r : bool),
    passes g bs !! i = Some r ->
    (r = true <->
     passed g = true
     \/ (exists b, bs !! i = Some b /\ (blockNum g <= Num b)%N)
     \/ (exists j, (j < i)%nat /\ passes g bs !! j = Some true)).
Proof.
  induction bs as [|b bs IH]; intros g i r Hr.
  - discriminate.
  - rewrite passes_cons in *. destruct i as [|i].
    + change (Some (fst (pass g b)) = Some r) in Hr.
      injection Hr as <-. rewrite pass_answer, orb_true_iff, N.leb_le.
      split.
      * intros [H|H]; [left; exact H | right; left; eauto].
      * intros [H|[(b' & Hb & Hle)|(j & Hj & _)]]; [auto | | lia].
        change (Some b = Some b') in Hb. injection Hb as <-. auto.
    + change (passes (snd (pass g b)) bs !! i = Some r) in Hr.
      specialize (IH _ _ _ Hr). rewrite pass_passed, pass_blockNum in IH.
      rewrite IH. clear IH. rewrite pass_answer, orb_true_iff, N.leb_le.
      split.
      * intros [[H|H]|[H|(j & Hj & Hl)]].
        -- left; exact H.
        -- right; right. exists 0%nat. split; [lia|].
           simpl. f_equal.
           apply orb_true_iff. right. apply N.leb_le. exact H.
        -- right; left. exact H.
        -- right; right. exists (S j). split; [lia | exact Hl].
      * intros [H|[H|(j & Hj & Hl)]].
        -- left; left; exact H.
        -- right; left. exact H.
        -- destruct j as [|j].
           ++ simpl in Hl. injection Hl as Hl.
              apply orb_true_iff in Hl. rewrite N.leb_le in Hl. left. exact Hl.
           ++ right; right. exists j. split; [lia | exact Hl].
Qed.

End GateFacts.

(** ** The read task *)

Section ReadFacts.
Import Gator MindReader.

Context {Obj ArchSt CheckSt ServSt : Type}.
Local Abbreviation Plugin := (@MindReaderPlugin Obj ArchSt CheckSt ServSt).




(** A message that passes the gate. *)
Lemma readOneMessage_passes (p : Plugin) obj block blocks :
  transformer p obj = Ok block ->
  fst (pass (gator p) block) = true ->
  exists p',
    readOneMessage p (Ok obj) blocks = (None, p', blocks ++ [block])
    /\ transformer p' = transformer p
    /\ stopAtBlockNum p' = stopAtBlockNum p
    /\ headBlockUpdateFunc p' = headBlockUpdateFunc p
    /\ shutter p' = shutter p
    /\ passed (gator p') = true
    /\ events p' =
       events p
       ++ (if headBlockUpdateFunc p
           then [EvHeadBlockUpdate (Num block) (Id block) (Timestamp block)]
           else [])
       ++ EvSend block
          :: (if negb (stopAtBlockNum p =? 0)%N
                 && (stopAtBlockNum p <=? Num block)%N
                 && negb (IsTerminating p)
              then [EvGoShutdown None] else []).
Proof.
  intros Ht Hp. unfold readOneMessage. rewrite Ht.
  pose proof (pass_passed (gator p) block) as Hg.
  destruct (pass (gator p) block) as [ok g]. simpl in Hp, Hg. subst ok.
  unfold IsTerminating, emit, setGator. simpl.
  destruct (headBlockUpdateFunc p) eqn:Hh; simpl;
    destruct (negb (stopAtBlockNum p =? 0)%N
              && (stopAtBlockNum p <=? Num block)%N
              && negb (terminating (shutter p))) eqn:Hc;
    eexists; (split; [reflexivity|]); simpl; rewrite ?Hh;
    repeat split; auto; rewrite <- ?app_assoc; reflexivity.
Qed.

(** A message stopped by the gate. *)
Lemma readOneMessage_dropped (p : Plugin) obj block blocks :
  transformer p obj = Ok block ->
  fst (pass (gator p) block) = false ->
  exists p',
    readOneMessage p (Ok obj) blocks = (None, p', blocks)
    /\ transformer p' = transformer p
    /\ stopAtBlockNum p' = stopAtBlockNum p
    /\ headBlockUpdateFunc p' = headBlockUpdateFunc p
    /\ shutter p' = shutter p
    /\ gator p' = gator p
    /\ events p' = events p.
Proof.
  intros Ht Hp. unfold readOneMessage. rewrite Ht.
  pose proof (pass_answer (gator p) block) as Ha. rewrite Hp in Ha.
  symmetry in Ha. apply orb_false_iff in Ha as [Hpassed Hlt].
  unfold pass. rewrite Hpassed. cbn. rewrite Hlt. cbn.
  eexists. split; [reflexivity|]. cbn. repeat split.
  destruct (gator p) as [ps bn]. cbn in *. subst ps. reflexivity.
Qed.




(** Once the gate is open, every block read is sent. *)
Lemma readLoop_open_gate (tr : Obj -> result Block) objs bs :
  Forall2 (fun o b => tr o = Ok b) objs bs ->
  forall (p : Plugin) blocks,
    transformer p = tr -> passed (gator p) = true ->
    exists p',
      readLoop (map (fun o => ConsoleRead (Ok o)) objs) p blocks
      = (Running, p', blocks ++ bs).
Proof.
  induction 1 as [|o b objs bs Hob _ IH]; intros p blocks Htr Hg.
  - exists p. cbn. rewrite app_nil_r. reflexivity.
  - cbn [map readLoop]. rewrite <- Htr in Hob.
    assert (Hp : fst (pass (gator p) b) = true)
      by (rewrite pass_answer, Hg; reflexivity).
    destruct (readOneMessage_passes p o b blocks Hob Hp)
      as (p' & -> & Ht' & _ & _ & _ & Hg' & _).
    destruct (IH p' (blocks ++ [b])) as (p'' & ->); [congruence | exact Hg' |].
    exists p''. rewrite <- app_assoc. reflexivity.
Qed.

(** C2.  A gate made by [NewBlockNumberGate target] answers [true] to a
    call of [pass] exactly when the block's number is at least [target] or
    an earlier call answered [true].  In [readOneMessage] a block the gate
    refuses is dropped silently: no error, nothing sent, no event.  With
    target 2 and the blocks 1 and 2, then any others, only block 2 and the
    later ones reach the channel. *)
Theorem gate_opens_at_target_and_sticks :
  (forall target bs i r,
      passes (NewBlockNumberGate target) bs !! i = Some r ->
      (r = true <->
       (exists b, bs !! i = Some b /\ (target <= Num b)%N)
       \/ (exists j, (j < i)%nat
                     /\ passes (NewBlockNumberGate target) bs !! j = Some true)))
  /\ (forall (p : Plugin) obj block blocks,
        transformer p obj = Ok block ->
        fst (pass (gator p) block) = false ->
        exists p',
          readOneMessage p (Ok obj) blocks = (None, p', blocks)
          /\ events p' = events p /\ shutter p' = shutter p)
  /\ (forall (p : Plugin) o1 o2 b1 b2 objs later,
        gator p = NewBlockNumberGate 2 ->
        transformer p o1 = Ok b1 -> Num b1 = 1%N ->
        transformer p o2 = Ok b2 -> Num b2 = 2%N ->
        Forall2 (fun o b => transformer p o = Ok b) objs later ->
        exists p',
          readLoop (map (fun o => ConsoleRead (Ok o)) (o1 :: o2 :: objs)) p []
          = (Running, p', b2 :: later)).
Proof.
  split; [|split].
  - intros target bs i r Hr.
    rewrite (passes_lookup bs _ i r Hr). cbn [NewBlockNumberGate passed blockNum].
    split.
    + intros [H|[H|H]]; [discriminate | auto | auto].
    + intros [H|H]; auto.
  - intros p obj block blocks Ht Hp.
    destruct (readOneMessage_dropped p obj block blocks Ht Hp)
      as (p' & E & _ & _ & _ & Hs & _ & Hev).
    exists p'. auto.
  - intros p o1 o2 b1 b2 objs later Hg H1 N1 H2 N2 Hl.
    cbn [map readLoop].
    assert (Hp1 : fst (pass (gator p) b1) = false)
      by (rewrite pass_answer, Hg, N1; reflexivity).
    destruct (readOneMessage_dropped p o1 b1 [] H1 Hp1)
      as (p1 & -> & Ht1 & _ & _ & _ & Hg1 & _).
    assert (Hp2 : fst (pass (gator p1) b2) = true)
      by (rewrite pass_answer, Hg1, Hg, N2; reflexivity).
    rewrite <- Ht1 in H2.
    destruct (readOneMessage_passes p1 o2 b2 [] H2 Hp2)
      as (p2 & -> & Ht2 & _ & _ & _ & Hg2 & _).
    destruct (readLoop_open_gate (transformer p) objs later Hl p2 ([] ++ [b2]))
      as (p3 & ->); [congruence | exact Hg2 |].
    exists p3. reflexivity.
Qed.


(** C4.  For a block that passes the gate, [readOneMessage] first sends it
    on the channel and then, if [stopAtBlockNum] is not zero, the block's
    number has reached it and the plugin is not terminating, starts
    [go Shutdown(nil)]; otherwise nothing follows the send.  With stop
    block 2, an open gate and the blocks 1 and 2, both calls return no
    error, both blocks are in the channel, and the shutdown that was
    started has no cause. *)
Theorem stop_block_shuts_down_after_send :
  (forall (p : Plugin) obj block blocks,
      transformer p obj = Ok block ->
      fst (pass (gator p) block) = true ->
      exists p' pre,
        readOneMessage p (Ok obj) blocks = (None, p', blocks ++ [block])
        /\ ((stopAtBlockNum p > 0)%N /\ (Num block >= stopAtBlockNum p)%N
             /\ IsTerminating p = false ->
            events p' = events p ++ pre ++ [EvSend block; EvGoShutdown None])
        /\ (~ ((stopAtBlockNum p > 0)%N /\ (Num block >= stopAtBlockNum p)%N
                /\ IsTerminating p = false) ->
            events p' = events p ++ pre ++ [EvSend block])
        /\ forallb (fun ev => match ev with
                              | EvHeadBlockUpdate _ _ _ => true
                              | _ => false
                              end) pre = true)
  /\ (forall (p : Plugin) o1 o2 b1 b2,
        stopAtBlockNum p = 2%N ->
        (blockNum (gator p) <= 1)%N ->
        IsTerminating p = false ->
        headBlockUpdateFunc p = false ->
        transformer p o1 = Ok b1 -> Num b1 = 1%N ->
        transformer p o2 = Ok b2 -> Num b2 = 2%N ->
        exists p1 p2,
          readOneMessage p (Ok o1) [] = (None, p1, [b1])
          /\ readOneMessage p1 (Ok o2) [b1] = (None, p2, [b1; b2])
          /\ events p2 = events p ++ [EvSend b1; EvSend b2; EvGoShutdown None]
          /\ shutterShutdown None (shutter p2)
             = {| terminating := true; cause := None |}).
Proof.
  split.
  - intros p obj block blocks Ht Hp.
    destruct (readOneMessage_passes p obj block blocks Ht Hp)
      as (p' & E & _ & _ & _ & _ & _ & Hev).
    exists p', (if headBlockUpdateFunc p
                then [EvHeadBlockUpdate (Num block) (Id block) (Timestamp block)]
                else []).
    split; [exact E|]. rewrite Hev. clear Hev E.
    destruct (negb (stopAtBlockNum p =? 0)%N
              && (stopAtBlockNum p <=? Num block)%N
              && negb (IsTerminating p)) eqn:Hc.
    + apply andb_true_iff in Hc as [Hc H3]. apply andb_true_iff in Hc as [H1 H2].
      apply negb_true_iff in H1, H3. apply N.eqb_neq in H1. apply N.leb_le in H2.
      split; [reflexivity|]. split.
      * intros Hn. exfalso. apply Hn. repeat split; [lia | lia | exact H3].
      * destruct (headBlockUpdateFunc p); reflexivity.
    + split; [|split].
      * intros (H1 & H2 & H3). exfalso.
        assert (negb (stopAtBlockNum p =? 0)%N
                && (stopAtBlockNum p <=? Num block)%N
                && negb (IsTerminating p) = true) as Hc'.
        { rewrite H3. rewrite !andb_true_iff. repeat split.
          - apply negb_true_iff, N.eqb_neq. lia.
          - apply N.leb_le. lia. }
        congruence.
      * reflexivity.
      * destruct (headBlockUpdateFunc p); reflexivity.
  - intros p o1 o2 b1 b2 Hstop Hg Hterm Hh H1 N1 H2 N2.
    assert (Hp1 : fst (pass (gator p) b1) = true).
    { rewrite pass_answer, N1. apply orb_true_iff. right. apply N.leb_le. exact Hg. }
    destruct (readOneMessage_passes p o1 b1 [] H1 Hp1)
      as (p1 & E1 & Ht1 & Hs1 & Hh1 & Hsh1 & Hg1 & Hev1).
    assert (Hp2 : fst (pass (gator p1) b2) = true)
      by (rewrite pass_answer, Hg1; reflexivity).
    rewrite <- Ht1 in H2.
    destruct (readOneMessage_passes p1 o2 b2 [b1] H2 Hp2)
      as (p2 & E2 & _ & _ & _ & Hsh2 & _ & Hev2).
    exists p1, p2. split; [exact E1|]. split; [exact E2|].
    unfold IsTerminating in *.
    rewrite Hev2, Hev1, Hh1, Hs1, Hsh1, Hh, Hstop, Hterm, N1, N2.
    split; [rewrite <- app_assoc; reflexivity|].
    rewrite Hsh2, Hsh1. unfold shutterShutdown. rewrite Hterm. reflexivity.
Qed.

End ReadFacts.

(** ** The consume task *)

Section ConsumeFacts.
Import Gator MindReader.

Context {Obj ArchSt CheckSt ServSt : Type}.
Variable storeBlock : ArchSt -> Block -> ArchSt * option error.
Variable waitForAllFilesToUpload : ArchSt -> ArchSt.
Variable continuityWrite : CheckSt -> N -> CheckSt * option error.
Variable pushBlock : ServSt -> Block -> ServSt * option error.

Local Abbreviation Plugin := (@MindReaderPlugin Obj ArchSt CheckSt ServSt).
Local Abbreviation consumeBlock :=
  (@consumeBlock Obj ArchSt CheckSt ServSt storeBlock continuityWrite pushBlock).
Local Abbreviation consumeLoop :=
  (@consumeLoop Obj ArchSt CheckSt ServSt storeBlock continuityWrite pushBlock).
Local Abbreviation consumeReadFlow :=
  (@consumeReadFlow Obj ArchSt CheckSt ServSt storeBlock
                    waitForAllFilesToUpload continuityWrite pushBlock).
Local Abbreviation consumeDeferred :=
  (@consumeDeferred Obj ArchSt CheckSt ServSt waitForAllFilesToUpload).
Local Abbreviation beforePush :=
  (@beforePush Obj ArchSt CheckSt ServSt storeBlock continuityWrite).

(** No error is its own wrapping. *)
Lemma wrapError_neq (e : error) : forall fmt, wrapError fmt e <> e.
Proof.
  induction e as [| |f c IH|]; intros fmt; try discriminate.
  intros [= _ H]. exact (IH f H).
Qed.

Lemma consumeBlock_store_fails (p : Plugin) block a e :
  storeBlock (archiver p) block = (a, Some e) ->
  consumeBlock p block
  = (afterShutdown p,
     Shutdown (Some (storeErr e)) (emit (EvStoreBlock block) (setArchiver a p))).
Proof. intros H. unfold MindReader.consumeBlock. rewrite H. reflexivity. Qed.

(** What an in-place [Shutdown] leaves. *)
Lemma Shutdown_shape (err : option error) (p : Plugin) :
  events (Shutdown err p)
  = events p ++ EvShutdown err
                :: (if ShutdownWaits p then [EvSetMaintenance] else [])
  /\ shutter (Shutdown err p) = shutterShutdown err (shutter p)
  /\ IsTerminating (Shutdown err p) = true
  /\ (IsTerminating p = false -> cause (shutter (Shutdown err p)) = err).
Proof.
  unfold Shutdown, IsTerminating, shutterShutdown.
  destruct (ShutdownWaits p); cbn; rewrite <- ?app_assoc;
    destruct (terminating (shutter p)) eqn:E; cbn; rewrite ?E;
    repeat split; try reflexivity; discriminate.
Qed.

Lemma consumeBlock_continuity_fails (p : Plugin) block a c c' e :
  storeBlock (archiver p) block = (a, None) ->
  continuityChecker p = Some c ->
  continuityWrite c (Num block) = (c', Some e) ->
  consumeBlock p block
  = (Continue,
     emit EvSetMaintenance
       (emit (EvContinuityWrite (Num block))
          (setContinuityChecker c'
             (emit (EvStoreBlock block) (setArchiver a p))))).
Proof.
  intros Hs Hc Hw. unfold MindReader.consumeBlock. rewrite Hs.
  cbn [emit setArchiver continuityChecker]. rewrite Hc, Hw. reflexivity.
Qed.

Lemma consumeBlock_pushes (p : Plugin) block s s' r :
  snd (storeBlock (archiver p) block) = None ->
  (forall c, continuityChecker p = Some c ->
             snd (continuityWrite c (Num block)) = None) ->
  blockServer p = Some s ->
  pushBlock s block = (s', r) ->
  consumeBlock p block
  = let q := emit (EvPushBlock block)
                  (setBlockServer s' (beforePush p block)) in
    match r with
    | Some e => (afterShutdown p, Shutdown (Some (pushErr e)) q)
    | None => (Continue, q)
    end.
Proof.
  intros Hs Hc Hb Hp. unfold MindReader.consumeBlock, MindReader.beforePush.
  destruct (storeBlock (archiver p) block) as [a [e|]]; [discriminate|].
  cbn [emit setArchiver continuityChecker fst].
  destruct (continuityChecker p) as [c|].
  - specialize (Hc c eq_refl).
    destruct (continuityWrite c (Num block)) as [c' [e|]]; [discriminate|].
    cbn [emit setArchiver setContinuityChecker blockServer fst].
    rewrite Hb, Hp. destruct r; reflexivity.
  - cbn [emit setArchiver blockServer]. rewrite Hb, Hp.
    destruct r; reflexivity.
Qed.

Lemma consumeReadFlow_returns (p p' : Plugin) block rest ins :
  consumeBlock p block = (Return, p') ->
  consumeReadFlow (TakeBlock :: ins) p (block :: rest)
  = (Returned, consumeDeferred p', rest).
Proof.
  intros H. unfold MindReader.consumeReadFlow. cbn [MindReader.consumeLoop].
  rewrite H. reflexivity.
Qed.

Lemma consumeReadFlow_blocks (p p' : Plugin) block rest ins :
  consumeBlock p block = (Stuck, p') ->
  consumeReadFlow (TakeBlock :: ins) p (block :: rest) = (Blocked, p', rest).
Proof.
  intros H. unfold MindReader.consumeReadFlow. cbn [MindReader.consumeLoop].
  rewrite H. reflexivity.
Qed.

(** After a [Shutdown] in place the loop takes nothing more, whatever
    comes: [consumeReadFlow] has returned, or waits in the hook. *)
Lemma consumeReadFlow_stops (p p' : Plugin) block rest ins :
  consumeBlock p block = (afterShutdown p, p') ->
  consumeReadFlow (TakeBlock :: ins) p (block :: rest)
  = if ShutdownWaits p then (Blocked, p', rest)
    else (Returned, consumeDeferred p', rest).
Proof.
  unfold afterShutdown. destruct (ShutdownWaits p); intros H.
  - apply consumeReadFlow_blocks, H.
  - apply consumeReadFlow_returns, H.
Qed.

Lemma consumeReadFlow_continues (p p' : Plugin) block rest ins :
  consumeBlock p block = (Continue, p') ->
  consumeReadFlow (TakeBlock :: ins) p (block :: rest)
  = consumeReadFlow ins p' rest.
Proof.
  intros H. unfold MindReader.consumeReadFlow. cbn [MindReader.consumeLoop].
  rewrite H. reflexivity.
Qed.

(** C1.  For a block taken from the channel.  An error of [storeBlock]
    makes the plugin call [Shutdown] with
    [fmt.Errorf("archiver store block failed: %w", err)], an error other
    than [err] itself: the plugin is terminating, with that error as the
    cause if it was not terminating before, and the loop stops, whatever
    comes next and with the rest of the channel untouched:
    [consumeReadFlow] returns through its deferred function, or, when this
    [Shutdown] runs the hook of [NewMindReaderPlugin], stays in that hook
    after its call of the maintenance callback.  An error of the
    continuity checker's [Write] calls the maintenance callback, leaves
    the shutter alone and lets the loop go on.  An error of [PushBlock]
    does as an error of [storeBlock], with
    [fmt.Errorf("failed writing to blocks server handler: %w", err)]. *)
Theorem consume_error_policy (p : Plugin) (block : Block) (rest : list Block) :
  (forall a e,
      storeBlock (archiver p) block = (a, Some e) ->
      let wrapped := wrapError "archiver store block failed: %w" e in
      exists p',
        (forall ins,
            consumeReadFlow (TakeBlock :: ins) p (block :: rest)
            = if ShutdownWaits p then (Blocked, p', rest)
              else (Returned, consumeDeferred p', rest))
        /\ events p'
           = events p ++ [EvStoreBlock block; EvShutdown (Some wrapped)]
               ++ (if ShutdownWaits p then [EvSetMaintenance] else [])
        /\ shutter p' = shutterShutdown (Some wrapped) (shutter p)
        /\ IsTerminating p' = true
        /\ (IsTerminating p = false -> cause (shutter p') = Some wrapped)
        /\ wrapped <> e)
  /\ (forall a c c' e,
        storeBlock (archiver p) block = (a, None) ->
        continuityChecker p = Some c ->
        continuityWrite c (Num block) = (c', Some e) ->
        exists p',
          (forall ins,
              consumeReadFlow (TakeBlock :: ins) p (block :: rest)
              = consumeReadFlow ins p' rest)
          /\ events p'
             = events p ++ [EvStoreBlock block; EvContinuityWrite (Num block);
                            EvSetMaintenance]
          /\ shutter p' = shutter p)
  /\ (forall s s' e,
        snd (storeBlock (archiver p) block) = None ->
        (forall c, continuityChecker p = Some c ->
                   snd (continuityWrite c (Num block)) = None) ->
        blockServer p = Some s ->
        pushBlock s block = (s', Some e) ->
        let wrapped :=
          wrapError "failed writing to blocks server handler: %w" e in
        exists p',
          (forall ins,
              consumeReadFlow (TakeBlock :: ins) p (block :: rest)
              = if ShutdownWaits p then (Blocked, p', rest)
                else (Returned, consumeDeferred p', rest))
          /\ events p'
             = events p
               ++ EvStoreBlock block
                  :: match continuityChecker p with
                     | Some _ => [EvContinuityWrite (Num block)]
                     | None => []
                     end
               ++ [EvPushBlock block; EvShutdown (Some wrapped)]
               ++ (if ShutdownWaits p then [EvSetMaintenance] else [])
          /\ shutter p' = shutterShutdown (Some wrapped) (shutter p)
          /\ IsTerminating p' = true
          /\ (IsTerminating p = false -> cause (shutter p') = Some wrapped)
          /\ wrapped <> e).
Proof.
  split; [|split].
  - intros a e Hs wrapped.
    exists (Shutdown (Some wrapped)
                     (emit (EvStoreBlock block) (setArchiver a p))).
    destruct (Shutdown_shape (Some wrapped)
                (emit (EvStoreBlock block) (setArchiver a p)))
      as (He & Hsh & Ht & Hc).
    split; [|split; [|split; [|split; [|split]]]].
    + intros ins. apply consumeReadFlow_stops, consumeBlock_store_fails, Hs.
    + rewrite He. cbn [emit setArchiver events].
      rewrite <- app_assoc. reflexivity.
    + exact Hsh.
    + exact Ht.
    + exact Hc.
    + apply wrapError_neq.
  - intros a c c' e Hs Hc Hw. eexists. split; [|split].
    + intros ins.
      eapply consumeReadFlow_continues, consumeBlock_continuity_fails; eauto.
    + cbn. rewrite <- !app_assoc. reflexivity.
    + reflexivity.
  - intros s s' e Hs Hc Hb Hp wrapped.
    set (q := emit (EvPushBlock block) (setBlockServer s' (beforePush p block))).
    exists (Shutdown (Some wrapped) q).
    destruct (Shutdown_shape (Some wrapped) q) as (He & Hsh & Ht & Hcause).
    assert (Hq : shutter q = shutter p /\ onTerminating q = onTerminating p).
    { unfold q, MindReader.beforePush. cbn.
      destruct (continuityChecker p); split; reflexivity. }
    destruct Hq as [Hq1 Hq2].
    assert (Hw : ShutdownWaits q = ShutdownWaits p)
      by (unfold ShutdownWaits, IsTerminating; rewrite Hq1, Hq2; reflexivity).
    split; [|split; [|split; [|split; [|split]]]].
    + intros ins. apply consumeReadFlow_stops.
      rewrite (consumeBlock_pushes p block s s' (Some e) Hs Hc Hb Hp).
      reflexivity.
    + rewrite He, Hw. unfold q, MindReader.beforePush. cbn.
      destruct (continuityChecker p); cbn; rewrite <- !app_assoc; reflexivity.
    + rewrite Hsh, Hq1. reflexivity.
    + exact Ht.
    + unfold IsTerminating in Hcause |- *. rewrite Hq1 in Hcause. exact Hcause.
    + apply wrapError_neq.
Qed.

(** C9.  When the continuity checker's [Write] fails for a block that the
    archiver has stored, [PushBlock] is not called for it: the only events
    are the store, the write and the maintenance callback, and the block
    server is as before.  The loop goes on, and the next block whose write
    succeeds is pushed. *)
Theorem continuity_error_skips_publication (p : Plugin) (block : Block)
    (rest : list Block) (ins : list ConsumeInput) a c c' e :
  storeBlock (archiver p) block = (a, None) ->
  continuityChecker p = Some c ->
  continuityWrite c (Num block) = (c', Some e) ->
  exists p',
    consumeBlock p block = (Continue, p')
    /\ events p'
       = events p ++ [EvStoreBlock block; EvContinuityWrite (Num block);
                      EvSetMaintenance]
    /\ archiver p' = a
    /\ blockServer p' = blockServer p
    /\ consumeReadFlow (TakeBlock :: ins) p (block :: rest)
       = consumeReadFlow ins p' rest
    /\ (forall next a2 c2 s s2 r,
          storeBlock a next = (a2, None) ->
          continuityWrite c' (Num next) = (c2, None) ->
          blockServer p = Some s ->
          pushBlock s next = (s2, r) ->
          exists ctl p2 post,
            consumeBlock p' next = (ctl, p2)
            /\ events p2
               = events p' ++ [EvStoreBlock next; EvContinuityWrite (Num next);
                               EvPushBlock next] ++ post).
Proof.
  intros Hs Hc Hw.
  pose proof (consumeBlock_continuity_fails p block a c c' e Hs Hc Hw) as E.
  eexists. split; [exact E|].
  split; [cbn; rewrite <- !app_assoc; reflexivity|].
  split; [reflexivity|]. split; [reflexivity|].
  split; [apply consumeReadFlow_continues, E|].
  intros next a2 c2 s s2 r Hs2 Hw2 Hb Hp.
  match goal with |- context [consumeBlock ?q next] => set (p' := q) end.
  assert (Hs2' : snd (storeBlock (archiver p') next) = None)
    by (cbn; rewrite Hs2; reflexivity).
  assert (Hc2' : forall c0, continuityChecker p' = Some c0 ->
                            snd (continuityWrite c0 (Num next)) = None).
  { cbn. intros c0 [= <-]. rewrite Hw2. reflexivity. }
  rewrite (consumeBlock_pushes p' next s s2 r Hs2' Hc2' Hb Hp).
  destruct r as [e2|]; cbn zeta.
  - match goal with |- context [Shutdown ?err ?q] =>
      destruct (Shutdown_shape err q) as (He & _);
      exists (afterShutdown p'), (Shutdown err q),
             (EvShutdown err
                :: (if ShutdownWaits q then [EvSetMaintenance] else []))
    end.
    split; [reflexivity|]. rewrite He.
    unfold MindReader.beforePush. cbn. rewrite <- !app_assoc. reflexivity.
  - do 2 eexists. exists []. split; [reflexivity|].
    unfold MindReader.beforePush. cbn. rewrite <- !app_assoc. reflexivity.
Qed.

End ConsumeFacts.

(** ** Backup schedules *)

Section ScheduleFacts.
Import Operator.

Variable ParseDuration : string -> result Z.

Lemma parseUintFrom_range (s : string) :
  forall n r, parseUintFrom n s = Ok r -> (r <= maxUint64)%N \/ r = n.
Proof.
  induction s as [|c s IH]; intros n r; cbn [parseUintFrom].
  - intros [= ->]. auto.
  - destruct (digitOf c) as [d|]; [|discriminate].
    destruct (maxUint64 / 10 + 1 <=? n)%N; [discriminate|].
    destruct (maxUint64 <? n * 10 + d)%N eqn:E; [discriminate|].
    apply N.ltb_ge in E. intros H. apply IH in H as [H| ->]; auto.
Qed.

Lemma ParseUint_range (s : string) (r : N) :
  ParseUint s = Ok r -> (r <= maxUint64)%N /\ s <> "".
Proof.
  unfold ParseUint. destruct (String.eqb_spec s ""); [discriminate|].
  intros H. split; [|assumption].
  apply parseUintFrom_range in H as [H| ->]; [exact H|]. vm_compute. discriminate.
Qed.

Lemma intOfUint64_small (u : N) :
  (Z.of_N u <= maxInt)%Z -> intOfUint64 u = Z.of_N u.
Proof. unfold intOfUint64. intros H. apply Z.leb_le in H. rewrite H. reflexivity. Qed.

Lemma intOfUint64_large (u : N) :
  (maxInt < Z.of_N u)%Z -> intOfUint64 u = (Z.of_N u - 2 ^ 64)%Z.
Proof. unfold intOfUint64. intros H. apply Z.leb_gt in H. rewrite H. reflexivity. Qed.

(** What the [freqBlocks] branch returns. *)
Lemma NewBackupSchedule_blocks (freqBlocks freqTime host name : string) (n : N) :
  ParseUint freqBlocks = Ok n -> n <> 0%N ->
  NewBackupSchedule ParseDuration freqBlocks freqTime host name
  = Ok {| BlocksBetweenRuns := intOfUint64 n; TimeBetweenRuns := 0;
          RequiredHostnameMatch := host; BackuperName := name |}.
Proof.
  intros Hp Hn. unfold NewBackupSchedule.
  destruct (ParseUint_range _ _ Hp) as [_ Hs].
  apply String.eqb_neq in Hs. rewrite Hs, Hp. cbn [negb].
  apply N.eqb_neq in Hn. rewrite Hn. reflexivity.
Qed.

(** The part of the schedule's contract that the code keeps: a block
    frequency up to [maxInt] is stored as it is. *)
Lemma NewBackupSchedule_blocks_within_int
    (freqBlocks freqTime host name : string) (n : N) :
  ParseUint freqBlocks = Ok n -> n <> 0%N -> (Z.of_N n <= maxInt)%Z ->
  exists sched,
    NewBackupSchedule ParseDuration freqBlocks freqTime host name = Ok sched
    /\ (BlocksBetweenRuns sched > 0)%Z /\ TimeBetweenRuns sched = 0%Z.
Proof.
  intros Hp Hn Hle. eexists. split; [apply NewBackupSchedule_blocks; eauto|].
  cbn. rewrite intOfUint64_small by assumption. split; [lia|reflexivity].
Qed.

Lemma NewBackupSchedule_blocks_invalid (freqBlocks freqTime host name : string) :
  freqBlocks <> "" ->
  (forall n, ParseUint freqBlocks = Ok n -> n = 0%N) ->
  exists e, NewBackupSchedule ParseDuration freqBlocks freqTime host name = Err e.
Proof.
  intros Hs Hz. unfold NewBackupSchedule.
  apply String.eqb_neq in Hs. rewrite Hs. cbn [negb].
  destruct (ParseUint freqBlocks) as [n|e]; [|eauto].
  rewrite (Hz n eq_refl). cbn. eauto.
Qed.

Lemma NewBackupSchedule_time (freqTime host name : string) :
  freqTime <> "" ->
  match ParseDuration freqTime with
  | Ok d =>
    if (Minute <=? d)%Z then
      NewBackupSchedule ParseDuration "" freqTime host name
      = Ok {| BlocksBetweenRuns := 0; TimeBetweenRuns := d;
              RequiredHostnameMatch := host; BackuperName := name |}
    else exists e,
        NewBackupSchedule ParseDuration "" freqTime host name = Err e
  | Err _ =>
    exists e, NewBackupSchedule ParseDuration "" freqTime host name = Err e
  end.
Proof.
  intros Hs. unfold NewBackupSchedule.
  apply String.eqb_neq in Hs. rewrite Hs. cbn.
  destruct (ParseDuration freqTime) as [d|e]; [|eauto].
  destruct (Minute <=? d)%Z eqn:E.
  - apply Z.leb_le in E. apply Z.ltb_ge in E. rewrite E. reflexivity.
  - apply Z.leb_gt in E. apply Z.ltb_lt in E. rewrite E. eauto.
Qed.

Lemma NewBackupSchedule_empty (host name : string) :
  exists e, NewBackupSchedule ParseDuration "" "" host name = Err e.
Proof. cbn. eauto. Qed.

(** [ParseUint] on a few strings. *)
Example ParseUint_examples :
  ParseUint "0" = Ok 0%N
  /\ ParseUint "007" = Ok 7%N
  /\ ParseUint "18446744073709551615" = Ok maxUint64
  /\ ParseUint "18446744073709551616" = Err errRange
  /\ ParseUint "" = Err errSyntax
  /\ ParseUint "+5" = Err errSyntax
  /\ ParseUint "12a" = Err errSyntax.
Proof. vm_compute. repeat split. Qed.

(** C5.  The schedule built for the block frequency
    ["9223372036854775808"], which parses to the positive number [2^63]:
    the constructor returns no error, and [BlocksBetweenRuns] is
    [-2^63], not a positive number. *)
Theorem NewBackupSchedule_block_frequency_overflow
    (freqTime host name : string) :
  ParseUint "9223372036854775808" = Ok 9223372036854775808%N
  /\ NewBackupSchedule ParseDuration "9223372036854775808" freqTime host name
     = Ok {| BlocksBetweenRuns := -9223372036854775808;
             TimeBetweenRuns := 0;
             RequiredHostnameMatch := host; BackuperName := name |}.
Proof. split; vm_compute; reflexivity. Qed.

(** C10.  [NewBackupSchedule] parses [freqBlocks] as an unsigned 64-bit
    number and converts it to [int]: for every [freqBlocks] whose value is
    above the largest [int], the constructor succeeds and the schedule's
    [BlocksBetweenRuns] is negative (the value minus [2^64]). *)
Theorem NewBackupSchedule_negative_blocks
    (freqBlocks freqTime host name : string) (n : N) :
  ParseUint freqBlocks = Ok n ->
  (maxInt < Z.of_N n)%Z ->
  exists sched,
    NewBackupSchedule ParseDuration freqBlocks freqTime host name = Ok sched
    /\ BlocksBetweenRuns sched = (Z.of_N n - 2 ^ 64)%Z
    /\ (BlocksBetweenRuns sched < 0)%Z.
Proof.
  intros Hp Hlt.
  assert (Hn : n <> 0%N) by (intros ->; vm_compute in Hlt; discriminate).
  eexists. split; [apply NewBackupSchedule_blocks; eauto|].
  cbn [BlocksBetweenRuns]. rewrite intOfUint64_large by assumption.
  split; [reflexivity|].
  destruct (ParseUint_range _ _ Hp) as [Hr _].
  unfold maxUint64 in Hr.
  assert (Z.of_N n <= Z.of_N (2 ^ 64 - 1))%Z by lia.
  change (Z.of_N (2 ^ 64 - 1)) with (2 ^ 64 - 1)%Z in H. lia.
Qed.

End ScheduleFacts.

(** ** Backup modules *)

Section ModuleFacts.
Import Operator.

Variable rangeOrder : forall A : Type, gmap string A -> list (string * A).
Hypothesis rangeOrder_enumerates :
  forall (A : Type) (m : gmap string A), rangeOrder A m ≡ₚ map_to_list m.

Local Abbreviation modNames := (@modNames rangeOrder).
Local Abbreviation restorable := (restorable rangeOrder).
Local Abbreviation selectBackupModule := (selectBackupModule rangeOrder).
Local Abbreviation selectRestoreModule := (selectRestoreModule rangeOrder).

Lemma rangeOrder_elem {A : Type} (m : gmap string A) k v :
  (k, v) ∈ rangeOrder A m <-> m !! k = Some v.
Proof. rewrite rangeOrder_enumerates. apply elem_of_map_to_list. Qed.

Lemma rangeOrder_NoDup {A : Type} (m : gmap string A) :
  NoDup (rangeOrder A m).*1.
Proof. rewrite rangeOrder_enumerates. apply NoDup_fst_map_to_list. Qed.

Lemma modNames_NoDup {A : Type} (m : gmap string A) : NoDup (modNames m).
Proof. apply rangeOrder_NoDup. Qed.

Lemma modNames_elem {A : Type} (m : gmap string A) k :
  k ∈ modNames m <-> is_Some (m !! k).
Proof.
  unfold Operator.modNames. rewrite list_elem_of_fmap. split.
  - intros ([k' v] & -> & H). apply rangeOrder_elem in H. eauto.
  - intros [v H]. exists (k, v). split; [reflexivity|].
    apply rangeOrder_elem, H.
Qed.

Lemma rangeOrder_singleton {A : Type} k (v : A) :
  rangeOrder A {[k := v]} = [(k, v)].
Proof.
  apply Permutation_singleton_r.
  rewrite rangeOrder_enumerates, map_to_list_singleton. reflexivity.
Qed.

(** The loop of [restorable], from any map built so far: an entry of the
    input whose module has [Restore] is set, any other key is left as it
    was. *)
Lemma restorable_loop (l : list (string * BackupModule)) :
  NoDup l.*1 ->
  forall (acc : gmap string RestorableBackupModule) k,
    let out := foldl (fun out '(k, v) =>
                        match asRestorable v with
                        | Some rest => <[k := rest]> out
                        | None => out
                        end) acc l in
    (forall v, (k, v) ∈ l ->
               out !! k = match asRestorable v with
                          | Some rest => Some rest
                          | None => acc !! k
                          end)
    /\ (k ∉ l.*1 -> out !! k = acc !! k).
Proof.
  induction l as [|[k0 v0] l IH]; intros Hnd acc k; cbn zeta.
  - split; [intros v H; inversion H | reflexivity].
  - cbn [foldl]. cbn [fmap list_fmap fst] in Hnd.
    apply NoDup_cons in Hnd as [Hk0 Hnd].
    set (acc' := match asRestorable v0 with
                 | Some rest => <[k0 := rest]> acc
                 | None => acc
                 end).
    destruct (IH Hnd acc' k) as [IH1 IH2]. cbn zeta in IH1, IH2.
    assert (Hne : k <> k0 -> acc' !! k = acc !! k).
    { intros Hne. unfold acc'. destruct (asRestorable v0); [|reflexivity].
      apply lookup_insert_ne. congruence. }
    split.
    + intros v Hin. apply elem_of_cons in Hin as [[= -> ->]|Hin].
      * rewrite IH2 by assumption. unfold acc'.
        destruct (asRestorable v0); [apply lookup_insert_eq | reflexivity].
      * assert (k <> k0).
        { intros ->. apply Hk0. apply list_elem_of_fmap. exists (k0, v). auto. }
        rewrite (IH1 v Hin). rewrite Hne by assumption. reflexivity.
    + intros Hnot. cbn [fmap list_fmap fst] in Hnot.
      apply not_elem_of_cons in Hnot as [Hne' Hnot].
      rewrite IH2 by assumption. apply Hne. assumption.
Qed.

(** [restorable] keeps exactly the modules that have [Restore]. *)
Lemma restorable_lookup (choices : gmap string BackupModule) k :
  restorable choices !! k = choices !! k ≫= asRestorable.
Proof.
  unfold Operator.restorable.
  destruct (restorable_loop (rangeOrder _ choices) (rangeOrder_NoDup choices) ∅ k)
    as [H1 H2]. cbn zeta in H1, H2.
  destruct (choices !! k) as [v|] eqn:E; cbn.
  - rewrite (H1 v) by (apply rangeOrder_elem, E).
    destruct (asRestorable v); [reflexivity | apply lookup_empty].
  - rewrite H2; [apply lookup_empty|].
    intros Hin. apply (modNames_elem choices k) in Hin as [v Hv]. congruence.
Qed.

Lemma size_one_lt {A : Type} (m : gmap string A) k v :
  m = {[k := v]} -> (size m =? 0)%nat = false /\ (1 <? size m)%nat = false.
Proof. intros ->. rewrite map_size_singleton. auto. Qed.

Lemma size_lookup_Some {A : Type} (m : gmap string A) k v :
  m !! k = Some v -> (size m =? 0)%nat = false.
Proof.
  intros H. apply Nat.eqb_neq. apply map_size_non_empty_iff.
  intros ->. rewrite lookup_empty in H. discriminate.
Qed.

Ltac selects_cases :=
  repeat split;
  [ intros ->%map_size_empty_iff name; rewrite Nat.eqb_refl; eauto
  | intros name m Hn Hm; rewrite (size_lookup_Some _ _ _ Hm);
    apply String.eqb_neq in Hn; rewrite Hn, Hm; reflexivity
  | intros name Hn Hm; destruct (_ =? 0)%nat; [eauto|];
    apply String.eqb_neq in Hn; rewrite Hn, Hm; cbn; eauto
  | intros Hlt;
    assert ((size _ =? 0)%nat = false) as -> by (apply Nat.eqb_neq; lia);
    apply Nat.ltb_lt in Hlt; rewrite Hlt; cbn;
    do 2 eexists; split; [reflexivity|];
    split; [apply modNames_NoDup | apply modNames_elem]
  | intros k m Hm; destruct (size_one_lt _ _ _ Hm) as [-> ->]; cbn;
    rewrite Hm, rangeOrder_singleton; reflexivity ].

(** C6.  [selectBackupModule] fails on an empty registry, returns the
    module of the given name or fails when there is none, and without a
    name fails with a message listing the registered names when there are
    several modules and returns the module when there is exactly one.
    [selectRestoreModule] does the same over the modules that have
    [Restore], which are exactly what [restorable] keeps; it fails when
    there are none. *)
Theorem select_module_policy :
  (forall mods : gmap string BackupModule,
      selects (selectBackupModule mods) mods)
  /\ (forall choices : gmap string BackupModule,
        selects (selectRestoreModule choices) (restorable choices)
        /\ (forall k, restorable choices !! k
                      = choices !! k ≫= asRestorable)
        /\ ((forall k m, choices !! k = Some m -> Restore m = None) ->
            forall name, exists e, selectRestoreModule choices name = Err e)).
Proof.
  split.
  - intros mods. unfold selects, Operator.selectBackupModule. selects_cases.
  - intros choices. split; [|split].
    + unfold selects, Operator.selectRestoreModule. cbn zeta.
      generalize (restorable choices). intros mods. selects_cases.
    + apply restorable_lookup.
    + intros Hnone name.
      assert (restorable choices = ∅) as E.
      { apply map_eq. intros k. rewrite restorable_lookup, lookup_empty.
        destruct (choices !! k) as [m|] eqn:Hm; [|reflexivity]. cbn.
        unfold asRestorable. rewrite (Hnone k m Hm). reflexivity. }
      unfold Operator.selectRestoreModule. cbn zeta. rewrite E.
      rewrite map_size_empty. cbn. eauto.
Qed.

(** C7.  The parameter of [Backup] is a [uint32]: the call [Backup(n)]
    exists on a module exactly for the numbers below [2^32]. *)
Theorem Backup_takes_uint32 (m : BackupModule) (n : N) :
  is_Some (backupCall m n) <-> (n < 2 ^ 32)%N.
Proof.
  unfold backupCall.
  generalize (eq_refl (n <? 2 ^ 32)%N).
  generalize (n <? 2 ^ 32)%N at 2 3 as b.
  intros [|] E.
  - apply N.ltb_lt in E as E'. split; [auto | eauto].
  - apply N.ltb_ge in E as E'. split; [intros [x Hx]; discriminate | lia].
Qed.

End ModuleFacts.

(** ** The merge archiver and the archiver selector *)

Section ArchiverFacts.
Import Archiver.





(** *** What holds of every stream *)




(** Waiting for the uploads sends out nothing: a complete buffer has left
    already. *)
Lemma mergeWaitForAllFilesToUpload_inv (m : MergeArchiver) :
  mergeInv m -> mergeWaitForAllFilesToUpload m = m.
Proof.
  intros (_ & Hb & _). unfold mergeWaitForAllFilesToUpload.
  destruct (last (buffer m)) as [lastBuffered|] eqn:El; [|reflexivity].
  apply last_Some in El as [l' El]. rewrite El in Hb.
  apply Forall_app in Hb as [_ Hb]. apply Forall_inv in Hb.
  apply N.eqb_neq in Hb. rewrite Hb. reflexivity.
Qed.





(** *** What holds of a stream without holes *)






(** The modelled archivers give what [TestArchiverSelector] expects in
    each of its eight scenarios: the uploaded merged blocks, the buffered
    ones and the one-block files. *)
Example archivers_reproduce_the_test_table :
  forall t, t ∈ tests -> runTest 1700000000000000000 t = expected t.
Proof.
  intros t Ht. unfold tests in Ht.
  repeat (apply elem_of_cons in Ht as [->|Ht]; [vm_compute; reflexivity|]).
  inversion Ht.
Qed.

(** What the test's last scenario expects as uploaded is not a bundle of
    an aligned range. *)
Example the_test_expects_a_partial_upload :
  expectUploadedMergedBlocks <$> last tests = Some [101; 102; 199]%N
  /\ forall k, alignedRange k <> [101; 102; 199]%N.
Proof.
  split; [reflexivity|].
  intros k H. apply (f_equal length) in H. discriminate H.
Qed.

End ArchiverFacts.

(** ** The statements on the sample collaborators *)

Section OnSamples.
Import Gator MindReader Operator.

Local Abbreviation cBlock :=
  (consumeBlock Sample.storeBlock Sample.continuityWrite Sample.pushBlock).
Local Abbreviation cFlow :=
  (consumeReadFlow Sample.storeBlock Sample.waitForAllFilesToUpload
                   Sample.continuityWrite Sample.pushBlock).
Local Abbreviation cDeferred :=
  (consumeDeferred (Obj := Block) (CheckSt := N) (ServSt := unit)
                   Sample.waitForAllFilesToUpload).

(** The three errors of [consume_error_policy]: block 13 fails in the
    archiver, of a plugin without the hook and of one with it; block 9
    after 4 fails in the continuity checker; block 7 after 6 fails in the
    block server of a plugin with the hook. *)
Lemma consume_error_policy_witness :
  (exists p',
      (forall ins,
          cFlow (TakeBlock :: ins) (Sample.plugin 0 0 (Some 4%N))
                [blockN 13; blockN 14]
          = (Returned, cDeferred p', [blockN 14]))
      /\ events p'
         = [EvStoreBlock (blockN 13);
            EvShutdown (Some (wrapError "archiver store block failed: %w"
                                        (errorString "disk full")))]
      /\ shutter p'
         = {| terminating := true;
              cause := Some (wrapError "archiver store block failed: %w"
                                       (errorString "disk full")) |})
  /\ (exists p',
        (forall ins,
            cFlow (TakeBlock :: ins) (Sample.hookedPlugin 0 0 (Some 4%N))
                  [blockN 13; blockN 14]
            = (Blocked, p', [blockN 14]))
        /\ events p'
           = [EvStoreBlock (blockN 13);
              EvShutdown (Some (wrapError "archiver store block failed: %w"
                                          (errorString "disk full")));
              EvSetMaintenance]
        /\ cause (shutter p')
           = Some (wrapError "archiver store block failed: %w"
                             (errorString "disk full")))
  /\ (exists p',
        (forall ins,
            cFlow (TakeBlock :: ins) (Sample.plugin 0 0 (Some 4%N)) [blockN 9]
            = cFlow ins p' [])
        /\ events p'
           = [EvStoreBlock (blockN 9); EvContinuityWrite 9; EvSetMaintenance]
        /\ shutter p' = shutterNew)
  /\ (exists p',
        (forall ins,
            cFlow (TakeBlock :: ins) (Sample.hookedPlugin 0 0 (Some 6%N))
                  [blockN 7]
            = (Blocked, p', []))
        /\ events p'
           = [EvStoreBlock (blockN 7); EvContinuityWrite 7;
              EvPushBlock (blockN 7);
              EvShutdown
                (Some (wrapError "failed writing to blocks server handler: %w"
                                 (errorString "subscriber gone")));
              EvSetMaintenance]
        /\ shutter p'
           = {| terminating := true;
                cause :=
                  Some (wrapError "failed writing to blocks server handler: %w"
                                  (errorString "subscriber gone")) |}).
Proof.
  split; [|split; [|split]].
  - destruct (proj1 (consume_error_policy
                       Sample.storeBlock Sample.waitForAllFilesToUpload
                       Sample.continuityWrite Sample.pushBlock
                       (Sample.plugin 0 0 (Some 4%N)) (blockN 13) [blockN 14])
                    tt (errorString "disk full") eq_refl)
      as (p' & Hflow & Hev & Hsh & _).
    exists p'. split; [exact Hflow|]. split; [exact Hev | exact Hsh].
  - destruct (proj1 (consume_error_policy
                       Sample.storeBlock Sample.waitForAllFilesToUpload
                       Sample.continuityWrite Sample.pushBlock
                       (Sample.hookedPlugin 0 0 (Some 4%N)) (blockN 13)
                       [blockN 14])
                    tt (errorString "disk full") eq_refl)
      as (p' & Hflow & Hev & _ & _ & Hcause & _).
    exists p'. split; [exact Hflow|]. split; [exact Hev|].
    apply Hcause. reflexivity.
  - apply (proj1 (proj2 (consume_error_policy
                    Sample.storeBlock Sample.waitForAllFilesToUpload
                    Sample.continuityWrite Sample.pushBlock
                    (Sample.plugin 0 0 (Some 4%N)) (blockN 9) []))
                 tt 4%N 4%N (errorString "continuity broken"));
      reflexivity.
  - destruct (proj2 (proj2 (consume_error_policy
                       Sample.storeBlock Sample.waitForAllFilesToUpload
                       Sample.continuityWrite Sample.pushBlock
                       (Sample.hookedPlugin 0 0 (Some 6%N)) (blockN 7) []))
                    tt tt (errorString "subscriber gone") eq_refl
                    ltac:(intros c [= <-]; reflexivity) eq_refl eq_refl)
      as (p' & Hflow & Hev & Hsh & _).
    exists p'. split; [exact Hflow|]. split; [exact Hev | exact Hsh].
Defined.

(** [continuity_error_skips_publication] on block 9 after 4, followed by
    block 5. *)
Lemma continuity_error_skips_publication_witness :
  exists p',
    cBlock (Sample.plugin 0 0 (Some 4%N)) (blockN 9) = (Continue, p')
    /\ events p'
       = [EvStoreBlock (blockN 9); EvContinuityWrite 9; EvSetMaintenance]
    /\ blockServer p' = Some tt
    /\ exists ctl p2 post,
        cBlock p' (blockN 5) = (ctl, p2)
        /\ events p2
           = events p' ++ [EvStoreBlock (blockN 5); EvContinuityWrite 5;
                           EvPushBlock (blockN 5)] ++ post.
Proof.
  destruct (continuity_error_skips_publication
              Sample.storeBlock Sample.waitForAllFilesToUpload
              Sample.continuityWrite Sample.pushBlock
              (Sample.plugin 0 0 (Some 4%N)) (blockN 9) [] []
              tt 4%N 4%N (errorString "continuity broken")
              eq_refl eq_refl eq_refl)
    as (p' & H1 & H2 & _ & H4 & _ & H6).
  exists p'. split; [exact H1|]. split; [exact H2|]. split; [exact H4|].
  apply (H6 (blockN 5) tt 5%N tt tt None); reflexivity.
Defined.

(** [gate_opens_at_target_and_sticks] with target 2: the third call, on
    block 0, says yes because the second did; block 1 is dropped; of the
    blocks 1, 2, 0, 5 all but the first reach the channel. *)
Lemma gate_opens_at_target_and_sticks_witness :
  ((exists b, [blockN 1; blockN 2; blockN 0] !! 2%nat = Some b
              /\ (2 <= Num b)%N)
   \/ (exists j, (j < 2)%nat
                 /\ passes (NewBlockNumberGate 2)
                           [blockN 1; blockN 2; blockN 0] !! j = Some true))
  /\ (exists p',
        readOneMessage (Sample.plugin 2 0 None) (Ok (blockN 1)) []
        = (None, p', [])
        /\ events p' = [] /\ shutter p' = shutterNew)
  /\ (exists p',
        readLoop (map (fun o => ConsoleRead (Ok o))
                      [blockN 1; blockN 2; blockN 0; blockN 5])
                 (Sample.plugin 2 0 None) []
        = (Running, p', [blockN 2; blockN 0; blockN 5])).
Proof.
  pose proof (gate_opens_at_target_and_sticks
                (Obj := Block) (ArchSt := unit) (CheckSt := N) (ServSt := unit))
    as (H1 & H2 & H3).
  split; [|split].
  - apply (H1 2%N [blockN 1; blockN 2; blockN 0] 2%nat true); reflexivity.
  - apply (H2 (Sample.plugin 2 0 None) (blockN 1) (blockN 1) []); reflexivity.
  - apply (H3 (Sample.plugin 2 0 None) (blockN 1) (blockN 2) (blockN 1)
              (blockN 2) [blockN 0; blockN 5] [blockN 0; blockN 5]);
      try reflexivity.
    repeat constructor.
Defined.


(** [stop_block_shuts_down_after_send] with stop block 2: block 2 is sent
    and the shutdown started; the blocks 1 and 2 both reach the channel. *)
Lemma stop_block_shuts_down_after_send_witness :
  (exists p' pre,
      readOneMessage (Sample.plugin 0 2 None) (Ok (blockN 2)) [blockN 1]
      = (None, p', [blockN 1; blockN 2])
      /\ events p' = pre ++ [EvSend (blockN 2); EvGoShutdown None])
  /\ (exists p1 p2,
        readOneMessage (Sample.plugin 0 2 None) (Ok (blockN 1)) []
        = (None, p1, [blockN 1])
        /\ readOneMessage p1 (Ok (blockN 2)) [blockN 1]
           = (None, p2, [blockN 1; blockN 2])
        /\ events p2
           = [EvSend (blockN 1); EvSend (blockN 2); EvGoShutdown None]
        /\ shutterShutdown None (shutter p2)
           = {| terminating := true; cause := None |}).
Proof.
  pose proof (stop_block_shuts_down_after_send
                (Obj := Block) (ArchSt := unit) (CheckSt := N) (ServSt := unit))
    as (H1 & H2).
  split.
  - destruct (H1 (Sample.plugin 0 2 None) (blockN 2) (blockN 2) [blockN 1]
                 eq_refl eq_refl) as (p' & pre & E & Hstop & _ & _).
    exists p', pre. split; [exact E|].
    apply Hstop. cbn. repeat split; lia.
  - apply (H2 (Sample.plugin 0 2 None) (blockN 1) (blockN 2)
              (blockN 1) (blockN 2)); try reflexivity.
    cbn. lia.
Defined.

(** [NewBackupSchedule_negative_blocks] on the decimal form of [2^63]. *)
Lemma NewBackupSchedule_negative_blocks_witness :
  exists sched,
    NewBackupSchedule Sample.ParseDuration "9223372036854775808" "" ""
                      "tar" = Ok sched
    /\ BlocksBetweenRuns sched = (9223372036854775808 - 2 ^ 64)%Z
    /\ (BlocksBetweenRuns sched < 0)%Z.
Proof.
  apply (NewBackupSchedule_negative_blocks Sample.ParseDuration
           "9223372036854775808" "" "" "tar" 9223372036854775808%N).
  - vm_compute. reflexivity.
  - vm_compute. reflexivity.
Defined.

(** [select_module_policy] on a registry of two modules, one of which can
    restore. *)
Lemma select_module_policy_witness :
  selectBackupModule Sample.rangeOrder
    {[ "tar" := Sample.tarModule; "snapshot" := Sample.snapshotModule ]}
    "snapshot"
  = Ok Sample.snapshotModule
  /\ selectBackupModule Sample.rangeOrder {[ "tar" := Sample.tarModule ]} ""
     = Ok Sample.tarModule
  /\ (exists r,
        selectRestoreModule Sample.rangeOrder
          {[ "tar" := Sample.tarModule; "snapshot" := Sample.snapshotModule ]}
          "tar"
        = Ok r /\ module r = Sample.tarModule)
  /\ (exists e,
        selectRestoreModule Sample.rangeOrder
          {[ "snapshot" := Sample.snapshotModule ]} "" = Err e)
  /\ (exists prefix names,
        selectBackupModule Sample.rangeOrder
          {[ "tar" := Sample.tarModule; "snapshot" := Sample.snapshotModule ]}
          ""
        = Err (errorString (prefix +:+ String.concat "," names +:+ ")"))
        /\ NoDup names /\ "tar" ∈ names /\ "snapshot" ∈ names).
Proof.
  pose proof (select_module_policy Sample.rangeOrder
                (fun A m => reflexivity (map_to_list m))) as [Hb Hr].
  split; [|split; [|split; [|split]]].
  - destruct (Hb {[ "tar" := Sample.tarModule;
                    "snapshot" := Sample.snapshotModule ]})
      as (_ & Hnamed & _).
    apply Hnamed; [discriminate | vm_compute; reflexivity].
  - destruct (Hb {[ "tar" := Sample.tarModule ]}) as (_ & _ & _ & _ & Hone).
    apply (Hone "tar"). reflexivity.
  - destruct (Hr {[ "tar" := Sample.tarModule;
                    "snapshot" := Sample.snapshotModule ]})
      as ((_ & Hnamed & _) & _).
    eexists. split; [apply Hnamed; [discriminate | vm_compute; reflexivity]|].
    reflexivity.
  - destruct (Hr {[ "snapshot" := Sample.snapshotModule ]}) as (_ & _ & He).
    apply He. intros k m Hm.
    apply lookup_singleton_Some in Hm as [_ <-]. reflexivity.
  - destruct (Hb {[ "tar" := Sample.tarModule;
                    "snapshot" := Sample.snapshotModule ]})
      as (_ & _ & _ & Hmany & _).
    destruct Hmany as (prefix & names & E & Hnd & Hin).
    { vm_compute. lia. }
    exists prefix, names. split; [exact E|]. split; [exact Hnd|].
    split; apply Hin; vm_compute; eauto.
Defined.



(** C7, as stated for all 64-bit numbers, fails at [2^32]: the number is
    a [uint64], and there is no call of [Backup] on it. *)
Lemma Backup_uint64_counterexample :
  (2 ^ 32 <= maxUint64)%N
  /\ backupCall Sample.tarModule (2 ^ 32) = None.
Proof. split; [vm_compute; discriminate | reflexivity]. Qed.

End OnSamples.

(** ** More on the read task *)

Section ReadTaskFacts.
Import Gator MindReader Trace.

Context {Obj ArchSt CheckSt ServSt : Type}.
Local Abbreviation Plugin := (@MindReaderPlugin Obj ArchSt CheckSt ServSt).

Lemma letThrough_open (g : BlockNumberGate) (bs : list Block) :
  passed g = true -> letThrough g bs = bs.
Proof. unfold letThrough. intros ->. reflexivity. Qed.

Lemma letThrough_pass (g : BlockNumberGate) (b : Block) (bs : list Block) :
  fst (pass g b) = true -> letThrough g (b :: bs) = b :: bs.
Proof.
  rewrite pass_answer. unfold letThrough. destruct (passed g); [reflexivity|].
  cbn. intros ->. reflexivity.
Qed.

Lemma letThrough_refuse (g : BlockNumberGate) (b : Block) (bs : list Block) :
  fst (pass g b) = false -> letThrough g (b :: bs) = letThrough g bs.
Proof.
  rewrite pass_answer. unfold letThrough. destruct (passed g); [discriminate|].
  cbn. intros ->. reflexivity.
Qed.

(** The whole of a run of the read loop: what it adds to the events, and
    what it leaves on the channel. *)
Lemma readLoop_run (ins : list ReadInput) :
  forall (p : Plugin) (blocks : list Block),
    let r := readLoop ins p blocks in
    let through := letThrough (gator p) (readBlocks (transformer p) ins) in
    exists added,
      events (snd (fst r)) = events p ++ added
      /\ snd r = blocks ++ through
      /\ sentIn added = through
      /\ headUpdatesIn added
         = (if headBlockUpdateFunc p
            then map (fun b => (Num b, Id b, Timestamp b)) through
            else [])
      /\ maintenanceIn added = failedReads (transformer p) ins
      /\ shutdownsIn added = [].
Proof.
  induction ins as [|[[obj|e]|err] ins IH]; intros p blocks; cbn zeta.
  - exists []. cbn. unfold letThrough.
    destruct (passed (gator p)), (headBlockUpdateFunc p);
      cbn; rewrite ?app_nil_r; repeat split; reflexivity.
  - cbn [readLoop readBlocks failedReads].
    destruct (transformer p obj) as [b|e] eqn:Ht.
    + destruct (fst (pass (gator p) b)) eqn:Hp.
      * destruct (readOneMessage_passes p obj b blocks Ht Hp)
          as (p1 & -> & Ht1 & _ & Hh1 & _ & Hg1 & Hev1).
        destruct (IH p1 (blocks ++ [b])) as (a2 & E & Hch & Hs & Hh & Hm & Hsd).
        cbn zeta in E, Hch, Hs, Hh, Hm, Hsd.
        rewrite Ht1, Hh1, (letThrough_open _ _ Hg1) in *.
        rewrite (letThrough_pass _ _ _ Hp).
        eexists. split; [rewrite E, Hev1, <- !app_assoc; reflexivity|].
        split; [rewrite Hch, <- app_assoc; reflexivity|].
        unfold sentIn, headUpdatesIn, maintenanceIn, shutdownsIn in *.
        rewrite !omap_app. cbn [omap list_omap].
        destruct (headBlockUpdateFunc p);
          destruct (negb _ && _ && negb _); cbn;
          rewrite ?Hs, ?Hh, ?Hm, ?Hsd; repeat split; reflexivity.
      * destruct (readOneMessage_dropped p obj b blocks Ht Hp)
          as (p1 & -> & Ht1 & _ & Hh1 & _ & Hg1 & Hev1).
        destruct (IH p1 blocks) as (a2 & E & Hch & Hs & Hh & Hm & Hsd).
        cbn zeta in E, Hch, Hs, Hh, Hm, Hsd.
        rewrite Ht1, Hh1, Hg1 in *.
        rewrite (letThrough_refuse _ _ _ Hp).
        exists a2. rewrite E, Hev1. repeat split; assumption.
    + unfold readOneMessage. rewrite Ht. cbn [is_EOF transformErr].
      destruct (IH (emit EvSetMaintenance p) blocks)
        as (a2 & E & Hch & Hs & Hh & Hm & Hsd).
      cbn zeta in E, Hch, Hs, Hh, Hm, Hsd. cbn in E, Hch, Hs, Hh, Hm.
      exists (EvSetMaintenance :: a2).
      split; [rewrite E, <- app_assoc; reflexivity|].
      split; [exact Hch|].
      unfold sentIn, headUpdatesIn, maintenanceIn, shutdownsIn in *.
      cbn. rewrite Hm. repeat split; assumption.
  - cbn [readLoop readBlocks failedReads readOneMessage].
    destruct (is_EOF e).
    + exists []. cbn. unfold letThrough.
      destruct (passed (gator p)), (headBlockUpdateFunc p);
        cbn; rewrite ?app_nil_r; repeat split; reflexivity.
    + destruct (IH (emit EvSetMaintenance p) blocks)
        as (a2 & E & Hch & Hs & Hh & Hm & Hsd).
      cbn zeta in E, Hch, Hs, Hh, Hm, Hsd. cbn in E, Hch, Hs, Hh, Hm.
      exists (EvSetMaintenance :: a2).
      split; [rewrite E, <- app_assoc; reflexivity|].
      split; [exact Hch|].
      unfold sentIn, headUpdatesIn, maintenanceIn, shutdownsIn in *.
      cbn. rewrite Hm. repeat split; assumption.
  - cbn [readLoop readBlocks failedReads].
    destruct (IH (setShutter (shutterShutdown err (shutter p)) p) blocks)
      as (a2 & E & H).
    exists a2. split; [exact E | exact H].
Qed.

Lemma maintenanceIn_app (l1 l2 : list Event) :
  maintenanceIn (l1 ++ l2) = (maintenanceIn l1 + maintenanceIn l2)%nat.
Proof. unfold maintenanceIn. rewrite omap_app, length_app. reflexivity. Qed.

(** The channel after [ReadFlow] holds, in the order read, every block
    that [Read] and the transformer delivered before the end of the stream,
    from the first one the gate lets through; the stop block, the state of
    the shutter and the failed messages in between take nothing away. *)
Theorem ReadFlow_sends_what_the_gate_lets_through
    (ins : list ReadInput) (p : Plugin) :
  snd (ReadFlow ins p)
  = letThrough (gator p) (readBlocks (transformer p) ins).
Proof.
  unfold ReadFlow.
  destruct (readLoop_run ins
              (emit EvGoAlwaysUploadFiles (emit EvGoConsumeReadFlow p)) [])
    as (added & _ & H & _).
  cbn zeta in H. exact H.
Qed.

(** [ReadFlow] calls the maintenance callback once for each message that
    fails before the end of the stream, in [Read] or in the transformer,
    and at no other time. *)
Theorem ReadFlow_maintenance_once_per_failed_message
    (ins : list ReadInput) (p : Plugin) :
  maintenanceIn (events (snd (fst (ReadFlow ins p))))
  = (maintenanceIn (events p) + failedReads (transformer p) ins)%nat.
Proof.
  unfold ReadFlow.
  destruct (readLoop_run ins
              (emit EvGoAlwaysUploadFiles (emit EvGoConsumeReadFlow p)) [])
    as (added & E & _ & _ & _ & Hm & _).
  cbn zeta in E, Hm. rewrite E, maintenanceIn_app, Hm. cbn [emit events].
  rewrite !maintenanceIn_app. cbn. lia.
Qed.

(** With a head block updater, [ReadFlow] calls it once for each block it
    sends, in the same order, with the number, the id and the time of the
    block; without one, never. *)
Theorem ReadFlow_head_update_per_sent_block
    (ins : list ReadInput) (p : Plugin) :
  exists added,
    events (snd (fst (ReadFlow ins p))) = events p ++ added
    /\ sentIn added = snd (ReadFlow ins p)
    /\ headUpdatesIn added
       = (if headBlockUpdateFunc p
          then map (fun b => (Num b, Id b, Timestamp b)) (snd (ReadFlow ins p))
          else []).
Proof.
  unfold ReadFlow.
  destruct (readLoop_run ins
              (emit EvGoAlwaysUploadFiles (emit EvGoConsumeReadFlow p)) [])
    as (added & E & Hq & Hs & Hh & _).
  cbn zeta in E, Hq, Hs, Hh. cbn in Hs, Hh.
  replace (snd (readLoop ins
                  (emit EvGoAlwaysUploadFiles (emit EvGoConsumeReadFlow p)) []))
    with (letThrough (gator p) (readBlocks (transformer p) ins))
    by (symmetry; exact Hq).
  exists (EvGoConsumeReadFlow :: EvGoAlwaysUploadFiles :: added).
  rewrite E. cbn [emit events]. rewrite <- !app_assoc.
  split; [reflexivity|]. split; [exact Hs | exact Hh].
Qed.

Lemma readLoop_starts_no_shutdown (ins : list ReadInput) :
  forall (p : Plugin) (blocks : list Block),
    stopAtBlockNum p = 0%N \/ IsTerminating p = true ->
    exists added,
      events (snd (fst (readLoop ins p blocks))) = events p ++ added
      /\ goShutdownsIn added = [].
Proof.
  induction ins as [|[[obj|e]|err] ins IH]; intros p blocks Hq.
  - exists []. rewrite app_nil_r. auto.
  - cbn [readLoop]. destruct (transformer p obj) as [b|e] eqn:Ht.
    + destruct (fst (pass (gator p) b)) eqn:Hp.
      * destruct (readOneMessage_passes p obj b blocks Ht Hp)
          as (p1 & -> & _ & Hs1 & _ & Hsh1 & _ & Hev1).
        destruct (IH p1 (blocks ++ [b])) as (a2 & -> & H2).
        { unfold IsTerminating. rewrite Hs1, Hsh1. exact Hq. }
        eexists. rewrite Hev1, <- !app_assoc. split; [reflexivity|].
        unfold goShutdownsIn in *. rewrite !omap_app.
        assert (negb (stopAtBlockNum p =? 0)%N
                && (stopAtBlockNum p <=? Num b)%N
                && negb (IsTerminating p) = false) as ->.
        { destruct Hq as [-> | ->]; [reflexivity|].
          rewrite andb_false_r. reflexivity. }
        destruct (headBlockUpdateFunc p); cbn; exact H2.
      * destruct (readOneMessage_dropped p obj b blocks Ht Hp)
          as (p1 & -> & _ & Hs1 & _ & Hsh1 & _ & Hev1).
        destruct (IH p1 blocks) as (a2 & -> & H2).
        { unfold IsTerminating. rewrite Hs1, Hsh1. exact Hq. }
        exists a2. rewrite Hev1. auto.
    + unfold readOneMessage. rewrite Ht. cbn [is_EOF transformErr].
      destruct (IH (emit EvSetMaintenance p) blocks) as (a2 & -> & H2);
        [exact Hq|].
      exists (EvSetMaintenance :: a2). cbn [emit events].
      rewrite <- app_assoc. auto.
  - cbn [readLoop readOneMessage]. destruct (is_EOF e).
    + exists []. rewrite app_nil_r. auto.
    + destruct (IH (emit EvSetMaintenance p) blocks) as (a2 & -> & H2);
        [exact Hq|].
      exists (EvSetMaintenance :: a2). cbn [emit events].
      rewrite <- app_assoc. auto.
  - cbn [readLoop].
    destruct (IH (setShutter (shutterShutdown err (shutter p)) p) blocks)
      as (a2 & -> & H2).
    { destruct Hq as [Hq|Hq]; [left; exact Hq|right].
      unfold IsTerminating in Hq |- *. cbn. unfold shutterShutdown.
      rewrite Hq. exact Hq. }
    exists a2. auto.
Qed.

(** Without a stop block, or once the plugin is terminating, [ReadFlow]
    starts no shutdown, whatever it reads. *)
Theorem ReadFlow_starts_no_shutdown (ins : list ReadInput) (p : Plugin) :
  stopAtBlockNum p = 0%N \/ IsTerminating p = true ->
  exists added,
    events (snd (fst (ReadFlow ins p))) = events p ++ added
    /\ goShutdownsIn added = [] /\ shutdownsIn added = [].
Proof.
  intros Hq. unfold ReadFlow.
  set (p2 := emit EvGoAlwaysUploadFiles (emit EvGoConsumeReadFlow p)).
  destruct (readLoop_starts_no_shutdown ins p2 []) as (added & E & Hg);
    [exact Hq|].
  destruct (readLoop_run ins p2 []) as (added' & E' & _ & _ & _ & _ & Hsd).
  cbn zeta in E'. rewrite E in E'. apply app_inv_head in E'. subst added'.
  exists (EvGoConsumeReadFlow :: EvGoAlwaysUploadFiles :: added).
  rewrite E. unfold p2. cbn [emit events]. rewrite <- !app_assoc.
  split; [reflexivity|]. split; [exact Hg | exact Hsd].
Qed.

End ReadTaskFacts.

(** ** More on the consume task *)

Section ConsumeTaskFacts.
Import Gator MindReader Trace.

Context {Obj ArchSt CheckSt ServSt : Type}.
Variable storeBlock : ArchSt -> Block -> ArchSt * option error.
Variable waitForAllFilesToUpload : ArchSt -> ArchSt.
Variable continuityWrite : CheckSt -> N -> CheckSt * option error.
Variable pushBlock : ServSt -> Block -> ServSt * option error.

Local Abbreviation Plugin := (@MindReaderPlugin Obj ArchSt CheckSt ServSt).
Local Abbreviation consumeBlock :=
  (@consumeBlock Obj ArchSt CheckSt ServSt storeBlock continuityWrite pushBlock).
Local Abbreviation consumeLoop :=
  (@consumeLoop Obj ArchSt CheckSt ServSt storeBlock continuityWrite pushBlock).
Local Abbreviation consumeReadFlow :=
  (@consumeReadFlow Obj ArchSt CheckSt ServSt storeBlock
                    waitForAllFilesToUpload continuityWrite pushBlock).

Lemma shutterShutdown_terminating (err : option error) (s : Shutter) :
  terminating (shutterShutdown err s) = true.
Proof.
  unfold shutterShutdown. destruct (terminating s) eqn:E; [exact E | reflexivity].
Qed.

(** What taking one block adds, and how it leaves the shutter. *)
Lemma consumeBlock_shape (p p' : Plugin) (block : Block) (ctl : LoopCtl) :
  consumeBlock p block = (ctl, p') ->
  exists mid,
    events p' = events p ++ EvStoreBlock block :: mid
    /\ storedIn mid = []
    /\ (pushedIn mid = [] \/ pushedIn mid = [block])
    /\ deferredIn mid = 0%nat
    /\ onTerminating p' = onTerminating p
    /\ match ctl with
       | Return =>
         IsTerminating p' = true
         /\ exists e, last (events p') = Some (EvShutdown (Some e))
       | Stuck => IsTerminating p' = true /\ onTerminating p = true
       | Continue => shutter p' = shutter p /\ shutdownsIn mid = []
       end
    /\ (continuityChecker p = None ->
        continuityChecker p' = None
        /\ maintenanceIn mid = match ctl with Stuck => 1%nat | _ => 0%nat end)
    /\ (blockServer p = None -> blockServer p' = None /\ pushedIn mid = []).
Proof.
  unfold MindReader.consumeBlock, afterShutdown, Shutdown, ShutdownWaits,
    IsTerminating, shutterShutdown.
  destruct (storeBlock (archiver p) block) as [a [e|]];
    cbn [emit setArchiver setShutter continuityChecker shutter onTerminating].
  - destruct (terminating (shutter p)) eqn:Et, (onTerminating p) eqn:Eh;
      cbn; rewrite ?Et, ?Eh; cbn; intros [= <- <-]; eexists;
      (split; [cbn; rewrite <- ?app_assoc; reflexivity|]);
      cbn; rewrite ?Et, ?last_app_cons;
      repeat split; eauto; discriminate.
  - destruct (continuityChecker p) as [c|] eqn:Hc.
    + destruct (continuityWrite c (Num block)) as [c' [e|]].
      * cbn; intros [= <- <-]. eexists.
        (split; [cbn; rewrite <- ?app_assoc; reflexivity|]).
        cbn. repeat split; eauto; discriminate.
      * cbn [emit setArchiver setContinuityChecker blockServer].
        destruct (blockServer p) as [s|] eqn:Hb.
        -- destruct (pushBlock s block) as [s' [e|]].
           ++ destruct (terminating (shutter p)) eqn:Et,
                         (onTerminating p) eqn:Eh;
                cbn; rewrite ?Et, ?Eh; cbn; intros [= <- <-]; eexists;
                (split; [cbn; rewrite <- ?app_assoc; reflexivity|]);
                cbn; rewrite ?Et, ?last_app_cons;
                repeat split; eauto; discriminate.
           ++ cbn; intros [= <- <-]. eexists.
              (split; [cbn; rewrite <- ?app_assoc; reflexivity|]).
              cbn. repeat split; eauto; discriminate.
        -- cbn; intros [= <- <-]. eexists.
           (split; [cbn; rewrite <- ?app_assoc; reflexivity|]).
           cbn. repeat split; eauto; discriminate.
    + cbn [emit setArchiver blockServer].
      destruct (blockServer p) as [s|] eqn:Hb.
      * destruct (pushBlock s block) as [s' [e|]].
        -- destruct (terminating (shutter p)) eqn:Et,
                      (onTerminating p) eqn:Eh;
             cbn; rewrite ?Et, ?Eh; cbn; intros [= <- <-]; eexists;
             (split; [cbn; rewrite <- ?app_assoc; reflexivity|]);
             cbn; rewrite ?Et, ?last_app_cons;
             repeat split; eauto; discriminate.
        -- cbn; intros [= <- <-]. eexists.
           (split; [cbn; rewrite <- ?app_assoc; reflexivity|]).
           cbn. repeat split; eauto; discriminate.
      * cbn; intros [= <- <-]. exists []. cbn. repeat split; auto.
Qed.

(** The whole of a run of the consume loop. *)
Lemma consumeLoop_run (ins : list ConsumeInput) :
  forall (p : Plugin) (blocks : list Block),
    let r := consumeLoop ins p blocks in
    exists added,
      events (snd (fst r)) = events p ++ added
      /\ storedIn added ++ snd r `prefix_of` blocks ++ enqueuedIn ins
      /\ (fst (fst r) = Running ->
          storedIn added ++ snd r = blocks ++ enqueuedIn ins)
      /\ pushedIn added `sublist_of` storedIn added
      /\ deferredIn added = 0%nat
      /\ (fst (fst r) = Returned ->
          IsTerminating (snd (fst r)) = true
          /\ (snd r = []
              \/ exists e,
                  last (events (snd (fst r))) = Some (EvShutdown (Some e))))
      /\ (fst (fst r) = Blocked ->
          IsTerminating (snd (fst r)) = true /\ onTerminating p = true)
      /\ (continuityChecker p = None ->
          maintenanceIn added
          = match fst (fst r) with Blocked => 1%nat | _ => 0%nat end)
      /\ (blockServer p = None -> pushedIn added = []).
Proof.
  induction ins as [|i ins IH]; intros p blocks; cbn zeta.
  - exists []. cbn. rewrite !app_nil_r.
    repeat split; try reflexivity; discriminate.
  - destruct i as [| |b|err]; cbn [MindReader.consumeLoop].
    + (* the termination signal *)
      destruct (IsTerminating p) eqn:Ht; [|apply IH].
      destruct (length blocks =? 0)%nat eqn:El; [|apply IH].
      apply Nat.eqb_eq, length_zero_iff_nil in El. subst blocks.
      exists []. cbn. rewrite !app_nil_r.
      repeat split; auto; try discriminate; try reflexivity.
      apply prefix_nil.
    + (* a block *)
      destruct blocks as [|block rest]; [apply IH|].
      destruct (consumeBlock p block) as [ctl p1] eqn:Ec.
      destruct (consumeBlock_shape p p1 block ctl Ec)
        as (mid & Ev & Hst & Hpu & Hde & Hho & Hctl & Hcc & Hbs).
      assert (Hstop :
        forall st, (ctl = Return /\ st = Returned)
                   \/ (ctl = Stuck /\ st = Blocked) ->
        exists added,
          events p1 = events p ++ added
          /\ storedIn added ++ rest `prefix_of`
               (block :: rest) ++ enqueuedIn (TakeBlock :: ins)
          /\ (st = Running ->
              storedIn added ++ rest
              = (block :: rest) ++ enqueuedIn (TakeBlock :: ins))
          /\ pushedIn added `sublist_of` storedIn added
          /\ deferredIn added = 0%nat
          /\ (st = Returned ->
              IsTerminating p1 = true
              /\ (rest = []
                  \/ exists e, last (events p1) = Some (EvShutdown (Some e))))
          /\ (st = Blocked ->
              IsTerminating p1 = true /\ onTerminating p = true)
          /\ (continuityChecker p = None ->
              maintenanceIn added
              = match st with Blocked => 1%nat | _ => 0%nat end)
          /\ (blockServer p = None -> pushedIn added = [])).
      { intros st Hst'.
        exists (EvStoreBlock block :: mid).
        assert (Hs : storedIn (EvStoreBlock block :: mid) = [block]).
        { unfold storedIn in *. cbn. rewrite Hst. reflexivity. }
        assert (Hp : pushedIn (EvStoreBlock block :: mid) = pushedIn mid)
          by reflexivity.
        rewrite Hs, Hp.
        split; [exact Ev|].
        split; [cbn; apply prefix_cons, prefix_app_r; reflexivity|].
        split; [intros ->; destruct Hst' as [[_ ?]|[_ ?]]; discriminate|].
        split.
        { destruct Hpu as [-> | ->]; [apply sublist_nil_l | reflexivity]. }
        split; [exact Hde|].
        split.
        { intros ->. destruct Hst' as [[-> _]|[_ ?]]; [|discriminate].
          destruct Hctl as [Hterm Hlast]. split; [exact Hterm|].
          right. exact Hlast. }
        split.
        { intros ->. destruct Hst' as [[_ ?]|[-> _]]; [discriminate|].
          exact Hctl. }
        split.
        { intros Hn. destruct (Hcc Hn) as [_ Hm].
          change (maintenanceIn (EvStoreBlock block :: mid))
            with (maintenanceIn mid).
          rewrite Hm. destruct Hst' as [[-> ->]|[-> ->]]; reflexivity. }
        { intros Hn. apply (Hbs Hn). } }
      destruct ctl.
      * destruct Hctl as [Hsh Hsd].
        destruct (IH p1 rest)
          as (a1 & E1 & Hpre & Hrun & Hsub & Hd1 & Hret & Hblk & Hc1 & Hb1).
        cbn zeta in E1, Hpre, Hrun, Hsub, Hd1, Hret, Hblk, Hc1.
        exists (EvStoreBlock block :: mid ++ a1).
        assert (Hs : storedIn (EvStoreBlock block :: mid ++ a1)
                     = block :: storedIn a1).
        { unfold storedIn in *. cbn. rewrite omap_app, Hst. reflexivity. }
        assert (Hp : pushedIn (EvStoreBlock block :: mid ++ a1)
                     = pushedIn mid ++ pushedIn a1).
        { unfold pushedIn. cbn. apply omap_app. }
        rewrite Hs, Hp.
        split; [rewrite E1, Ev, <- app_assoc; reflexivity|].
        split; [cbn; apply prefix_cons, Hpre|].
        split; [intros Hr; cbn; f_equal; apply Hrun, Hr|].
        split.
        { destruct Hpu as [-> | ->]; cbn.
          - apply sublist_cons, Hsub.
          - apply sublist_skip, Hsub. }
        split.
        { unfold deferredIn in *. cbn. rewrite omap_app, length_app.
          rewrite Hde, Hd1. reflexivity. }
        split; [exact Hret|].
        split.
        { intros Hb. destruct (Hblk Hb) as [Ht Hh]. split; [exact Ht|].
          rewrite <- Hho. exact Hh. }
        split.
        { intros Hn. destruct (Hcc Hn) as [Hn1 Hm].
          unfold maintenanceIn in *. cbn. rewrite omap_app, length_app.
          rewrite Hm, (Hc1 Hn1). reflexivity. }
        { intros Hn. destruct (Hbs Hn) as [Hn1 Hm].
          rewrite Hm, (Hb1 Hn1). reflexivity. }
      * cbn [fst snd]. apply (Hstop Returned). left. split; reflexivity.
      * cbn [fst snd]. apply (Hstop Blocked). right. split; reflexivity.
    + (* the read task sends a block *)
      destruct (IH p (blocks ++ [b])) as (a1 & H). cbn zeta in H.
      exists a1. cbn [enqueuedIn omap list_omap].
      change (omap _ ins) with (enqueuedIn ins).
      rewrite <- app_assoc in H. exact H.
    + (* a shutdown elsewhere *)
      apply (IH (setShutter (shutterShutdown err (shutter p)) p) blocks).
Qed.

Lemma shutdownsIn_snoc (l : list Event) (err : option error) :
  last l = Some (EvShutdown err) -> last (shutdownsIn l) = Some err.
Proof.
  intros H. apply last_Some in H as [l' ->].
  unfold shutdownsIn. rewrite omap_app. cbn. apply last_snoc.
Qed.

(** What [consumeReadFlow] adds to what [consumeLoop] did. *)
Lemma consumeReadFlow_unfold (ins : list ConsumeInput) (p : Plugin)
    (blocks : list Block) :
  let r := consumeLoop ins p blocks in
  consumeReadFlow ins p blocks
  = match fst (fst r) with
    | Returned =>
      (Returned,
       consumeDeferred waitForAllFilesToUpload (snd (fst r)), snd r)
    | Running | Blocked => r
    end.
Proof.
  cbn zeta. unfold MindReader.consumeReadFlow.
  destruct (consumeLoop ins p blocks) as [[[| |] p'] rest]; reflexivity.
Qed.

(** [consumeReadFlow] returns only once the plugin is terminating, and it
    leaves blocks on the channel only when the last thing it did was to shut
    the plugin down with an error: on the termination signal alone it first
    takes every block that is still queued. *)
Theorem consumeReadFlow_returns_terminating_and_drained
    (ins : list ConsumeInput) (p : Plugin) (blocks : list Block) :
  fst (fst (consumeReadFlow ins p blocks)) = Returned ->
  IsTerminating (snd (fst (consumeReadFlow ins p blocks))) = true
  /\ (snd (consumeReadFlow ins p blocks) = []
      \/ exists e,
          last (shutdownsIn (events (snd (fst (consumeReadFlow ins p blocks)))))
          = Some (Some e)).
Proof.
  rewrite consumeReadFlow_unfold. cbn zeta.
  destruct (consumeLoop_run ins p blocks)
    as (added & _ & _ & _ & _ & _ & Hret & _). cbn zeta in Hret.
  destruct (consumeLoop ins p blocks) as [[[| |] p'] rest]; cbn [fst snd] in *;
    [|discriminate|discriminate].
  intros _. destruct (Hret eq_refl) as [Ht Hd]. split; [exact Ht|].
  destruct Hd as [Hd|[e He]]; [left; exact Hd|right].
  exists e. cbn [consumeDeferred emit events].
  apply shutdownsIn_snoc in He. unfold shutdownsIn in *.
  rewrite !omap_app. cbn. rewrite !app_nil_r. exact He.
Qed.

(** The archiver is given the blocks in the order of the channel, none
    left out and none twice: what was stored, followed by what is still
    queued, is the beginning of what the channel held and the read task
    then sent, and all of it while the loop has not returned. *)
Theorem consumeReadFlow_stores_in_channel_order
    (ins : list ConsumeInput) (p : Plugin) (blocks : list Block) :
  exists added,
    events (snd (fst (consumeReadFlow ins p blocks))) = events p ++ added
    /\ storedIn added ++ snd (consumeReadFlow ins p blocks)
       `prefix_of` blocks ++ enqueuedIn ins
    /\ (fst (fst (consumeReadFlow ins p blocks)) = Running ->
        storedIn added ++ snd (consumeReadFlow ins p blocks)
        = blocks ++ enqueuedIn ins).
Proof.
  rewrite consumeReadFlow_unfold. cbn zeta.
  destruct (consumeLoop_run ins p blocks)
    as (added & E & Hpre & Hrun & _). cbn zeta in E, Hpre, Hrun.
  destruct (consumeLoop ins p blocks) as [[[| |] p'] rest]; cbn [fst snd] in *.
  - exists (added ++ [EvWaitForAllFilesToUpload; EvCloseReadFlowDone]).
    cbn [consumeDeferred emit events setArchiver]. rewrite E, <- !app_assoc.
    split; [reflexivity|].
    unfold storedIn in *. rewrite omap_app. cbn. rewrite app_nil_r.
    split; [exact Hpre | discriminate].
  - exists added. auto.
  - exists added. auto.
Qed.

(** The deferred function runs when [consumeReadFlow] returns and at no
    other time: the wait for the uploads and the closing of
    [consumeReadFlowDone] are the last two events of a run that returned,
    and occur nowhere else, neither while the loop runs nor while it is
    blocked in a [Shutdown] of its own. *)
Theorem consumeReadFlow_closes_done_once_at_return
    (ins : list ConsumeInput) (p : Plugin) (blocks : list Block) :
  exists added,
    events (snd (fst (consumeReadFlow ins p blocks))) = events p ++ added
    /\ match fst (fst (consumeReadFlow ins p blocks)) with
       | Returned =>
         exists before,
           added = before ++ [EvWaitForAllFilesToUpload; EvCloseReadFlowDone]
           /\ deferredIn before = 0%nat
       | Running => deferredIn added = 0%nat
       | Blocked => deferredIn added = 0%nat
       end.
Proof.
  rewrite consumeReadFlow_unfold. cbn zeta.
  destruct (consumeLoop_run ins p blocks)
    as (added & E & _ & _ & _ & Hd & _). cbn zeta in E.
  destruct (consumeLoop ins p blocks) as [[[| |] p'] rest]; cbn [fst snd] in *.
  - exists (added ++ [EvWaitForAllFilesToUpload; EvCloseReadFlowDone]).
    cbn [consumeDeferred emit events setArchiver]. rewrite E, <- !app_assoc.
    split; [reflexivity|]. exists added. auto.
  - exists added. auto.
  - exists added. auto.
Qed.

(** Only stored blocks are pushed: the blocks given to the block server
    are, in the same order, among those given to the archiver. *)
Theorem consumeReadFlow_pushes_only_stored_blocks
    (ins : list ConsumeInput) (p : Plugin) (blocks : list Block) :
  exists added,
    events (snd (fst (consumeReadFlow ins p blocks))) = events p ++ added
    /\ pushedIn added `sublist_of` storedIn added.
Proof.
  rewrite consumeReadFlow_unfold. cbn zeta.
  destruct (consumeLoop_run ins p blocks)
    as (added & E & _ & _ & Hsub & _). cbn zeta in E.
  destruct (consumeLoop ins p blocks) as [[[| |] p'] rest]; cbn [fst snd] in *.
  - exists (added ++ [EvWaitForAllFilesToUpload; EvCloseReadFlowDone]).
    cbn [consumeDeferred emit events setArchiver]. rewrite E, <- !app_assoc.
    split; [reflexivity|].
    unfold storedIn, pushedIn in *. rewrite !omap_app. cbn.
    rewrite !app_nil_r. exact Hsub.
  - exists added. auto.
  - exists added. auto.
Qed.

(** Without a continuity checker the consume task calls the maintenance
    callback in one case only, and then once: from the hook of the
    [Shutdown] it makes itself after an error of [storeBlock] or of
    [PushBlock], the hook in which it then stays; a plugin without that
    hook is never left so.  Without a block server it pushes nothing. *)
Theorem consumeReadFlow_without_checker_or_server
    (ins : list ConsumeInput) (p : Plugin) (blocks : list Block) :
  exists added,
    events (snd (fst (consumeReadFlow ins p blocks))) = events p ++ added
    /\ (continuityChecker p = None ->
        maintenanceIn added
        = match fst (fst (consumeReadFlow ins p blocks)) with
          | Blocked => 1%nat
          | _ => 0%nat
          end)
    /\ (onTerminating p = false ->
        fst (fst (consumeReadFlow ins p blocks)) <> Blocked)
    /\ (blockServer p = None -> pushedIn added = []).
Proof.
  rewrite consumeReadFlow_unfold. cbn zeta.
  destruct (consumeLoop_run ins p blocks)
    as (added & E & _ & _ & _ & _ & _ & Hk & Hc & Hb). cbn zeta in E, Hk, Hc.
  destruct (consumeLoop ins p blocks) as [[[| |] p'] rest]; cbn [fst snd] in *.
  - exists (added ++ [EvWaitForAllFilesToUpload; EvCloseReadFlowDone]).
    cbn [consumeDeferred emit events setArchiver]. rewrite E, <- !app_assoc.
    split; [reflexivity|].
    unfold maintenanceIn, pushedIn in *. rewrite !omap_app. cbn.
    rewrite !app_nil_r.
    split; [exact Hc|]. split; [discriminate | exact Hb].
  - exists added. split; [exact E|]. split; [exact Hc|].
    split; [discriminate | exact Hb].
  - exists added. split; [exact E|]. split; [exact Hc|].
    split; [|exact Hb].
    intros Hf _. destruct (Hk eq_refl) as [_ Hh]. congruence.
Qed.

End ConsumeTaskFacts.

(** ** The uploader task, [LogLine] and [Close] *)

Section LifecycleFacts.
Import Gator MindReader Lifecycle.

Context {Obj ArchSt CheckSt ServSt : Type}.
Variable uploadFiles : ArchSt -> ArchSt * option error.

Local Abbreviation Plugin := (@MindReaderPlugin Obj ArchSt CheckSt ServSt).
Local Abbreviation uploadOnce := (@uploadOnce Obj ArchSt CheckSt ServSt uploadFiles).
Local Abbreviation uploadWait := (@uploadWait Obj ArchSt CheckSt ServSt uploadFiles).
Local Abbreviation alwaysUploadFiles :=
  (@alwaysUploadFiles Obj ArchSt CheckSt ServSt uploadFiles).

Lemma uploadWait_returned (ins : list UploadInput) :
  forall p : Plugin,
    fst (fst (uploadWait ins p)) = Returned ->
    IsTerminating (snd (fst (uploadWait ins p))) = true.
Proof.
  induction ins as [|[| |err] ins IH]; intros p; cbn [Lifecycle.uploadWait].
  - discriminate.
  - destruct (IsTerminating p) eqn:E; [intros _; exact E|].
    specialize (IH (uploadOnce p)).
    destruct (uploadWait ins (uploadOnce p)) as [[st p'] n]. exact IH.
  - destruct (IsTerminating p) eqn:E; [intros _; exact E | apply IH].
  - apply IH.
Qed.

(** [alwaysUploadFiles] returns only once the plugin is terminating, and a
    plugin that is terminating at the start is left without a single call of
    [uploadFiles]. *)
Theorem alwaysUploadFiles_returns_only_terminating
    (ins : list UploadInput) (p : Plugin) :
  (fst (fst (alwaysUploadFiles ins p)) = Returned ->
   IsTerminating (snd (fst (alwaysUploadFiles ins p))) = true)
  /\ (IsTerminating p = true -> alwaysUploadFiles ins p = (Returned, p, 0%nat)).
Proof.
  unfold Lifecycle.alwaysUploadFiles. split.
  - destruct (IsTerminating p) eqn:E; [intros _; exact E|].
    pose proof (uploadWait_returned ins (uploadOnce p)) as H.
    destruct (uploadWait ins (uploadOnce p)) as [[st p'] n]. exact H.
  - intros ->. reflexivity.
Qed.

Lemma uploadWait_undisturbed (ins : list UploadInput) :
  forall p : Plugin,
    IsTerminating p = false -> undisturbed ins = true ->
    exists p',
      uploadWait ins p = (Running, p', timersIn ins)
      /\ shutter p' = shutter p /\ events p' = events p
      /\ archiver p'
         = Nat.iter (timersIn ins) (fun a => fst (uploadFiles a)) (archiver p).
Proof.
  induction ins as [|[| |err] ins IH]; intros p Ht Hu;
    cbn [Lifecycle.uploadWait].
  - exists p. auto.
  - rewrite Ht. destruct (IH (uploadOnce p) Ht Hu) as (p' & -> & Hs & He & Ha).
    exists p'. split; [reflexivity|]. split; [exact Hs|]. split; [exact He|].
    rewrite Ha. change (timersIn (TimerFires :: ins)) with (S (timersIn ins)).
    rewrite Nat.iter_succ_r. reflexivity.
  - rewrite Ht. apply IH; assumption.
  - discriminate.
Qed.

(** While nobody shuts the plugin down, [alwaysUploadFiles] goes on: it
    calls [uploadFiles] once at the start and once more each time the timer
    fires, whatever these calls return, and touches neither the shutter nor
    the events. *)
Theorem alwaysUploadFiles_keeps_uploading
    (ins : list UploadInput) (p : Plugin) :
  IsTerminating p = false -> undisturbed ins = true ->
  exists p',
    alwaysUploadFiles ins p = (Running, p', S (timersIn ins))
    /\ shutter p' = shutter p /\ events p' = events p
    /\ archiver p'
       = Nat.iter (S (timersIn ins)) (fun a => fst (uploadFiles a)) (archiver p).
Proof.
  intros Ht Hu. unfold Lifecycle.alwaysUploadFiles. rewrite Ht.
  destruct (uploadWait_undisturbed ins (uploadOnce p) Ht Hu)
    as (p' & -> & Hs & He & Ha).
  exists p'. split; [reflexivity|]. split; [exact Hs|]. split; [exact He|].
  rewrite Ha, Nat.iter_succ_r. reflexivity.
Qed.

Lemma logLines_cons (l : string) (lines : list string)
    (wp : PipeWriter * Plugin) :
  logLines (l :: lines) wp = logLines lines (LogLine l wp).
Proof. reflexivity. Qed.

Lemma LogLine_open (l : string) (w : PipeWriter) (p : Plugin) :
  writeError w = None ->
  LogLine l (w, p)
  = ({| written := written w ++ [l +:+ String (Ascii.ascii_of_nat 10) ""];
        writeError := None |}, p).
Proof. intros H. unfold LogLine, pipeWrite. cbn [fst snd]. rewrite H. reflexivity. Qed.

Lemma LogLine_closed (l : string) (w : PipeWriter) (p : Plugin) (e : error) :
  writeError w = Some e -> LogLine l (w, p) = (w, ShutdownAndWait (Some e) p).
Proof. intros H. unfold LogLine, pipeWrite. cbn [fst snd]. rewrite H. reflexivity. Qed.

Lemma logLines_open (lines : list string) :
  forall (w : PipeWriter) (p : Plugin),
    writeError w = None ->
    logLines lines (w, p)
    = ({| written := written w
                     ++ map (fun l => l +:+ String (Ascii.ascii_of_nat 10) "")
                            lines;
          writeError := None |}, p).
Proof.
  induction lines as [|l lines IH]; intros w p Hw.
  - cbn. rewrite app_nil_r. destruct w. cbn in *. subst. reflexivity.
  - rewrite logLines_cons, (LogLine_open l w p Hw), IH by reflexivity.
    cbn [written map]. rewrite <- app_assoc. reflexivity.
Qed.

(** On a pipe that takes writes, [LogLine] drops nothing and reorders
    nothing: after any lines the pipe has received each of them followed by
    a newline, in order, and the plugin is untouched. *)
Theorem LogLine_writes_each_line_in_order
    (lines : list string) (w : PipeWriter) (p : Plugin) :
  writeError w = None ->
  logLines lines (w, p)
  = ({| written := written w
                   ++ map (fun l => l +:+ String (Ascii.ascii_of_nat 10) "")
                          lines;
        writeError := None |}, p).
Proof. apply logLines_open. Qed.

(** A [Shutdown] gone through leaves the shutter as the shutter library
    does, with or without the hook. *)
Lemma ShutdownAndWait_shutter (err : option error) (p : Plugin) :
  shutter (ShutdownAndWait err p) = shutterShutdown err (shutter p).
Proof.
  unfold ShutdownAndWait, afterReadFlowDone, Shutdown.
  destruct (ShutdownWaits p); [|reflexivity].
  cbn [emit setShutter stopAtBlockNum].
  destruct (stopAtBlockNum p =? 0)%N; reflexivity.
Qed.

Lemma ShutdownAndWait_terminating (err : option error) (p : Plugin) :
  IsTerminating p = true -> shutter (ShutdownAndWait err p) = shutter p.
Proof.
  rewrite ShutdownAndWait_shutter. unfold IsTerminating, shutterShutdown.
  intros ->. reflexivity.
Qed.

Lemma logLines_closed (lines : list string) :
  forall (w : PipeWriter) (p : Plugin),
    writeError w <> None -> IsTerminating p = true ->
    fst (logLines lines (w, p)) = w
    /\ shutter (snd (logLines lines (w, p))) = shutter p.
Proof.
  induction lines as [|l lines IH]; intros w p Hw Ht.
  - auto.
  - destruct (writeError w) as [e|] eqn:E; [|congruence].
    rewrite logLines_cons, (LogLine_closed l w p e E).
    destruct (IH w (ShutdownAndWait (Some e) p)) as [H1 H2].
    + congruence.
    + unfold IsTerminating.
      rewrite ShutdownAndWait_terminating by exact Ht. exact Ht.
    + split; [exact H1|]. rewrite H2. apply ShutdownAndWait_terminating, Ht.
Qed.

(** After [Close] no line reaches the pipe any more, and the shutter
    stays as [Close] left it: the cause of the shutdown is the error given
    to [Close], or the earlier one if the plugin was terminating already,
    never the error of a later write. *)
Theorem LogLine_after_Close_changes_nothing
    (lines : list string) (err : option error) (w : PipeWriter) (p : Plugin) :
  written (fst (logLines lines (Close err (w, p)))) = written w
  /\ shutter (snd (logLines lines (Close err (w, p))))
     = shutterShutdown err (shutter p).
Proof.
  unfold Close. cbn [fst snd].
  destruct (logLines_closed lines (pipeCloseWithError err w)
              (ShutdownAndWait err p))
    as [H1 H2].
  - discriminate.
  - unfold IsTerminating. rewrite ShutdownAndWait_shutter.
    apply shutterShutdown_terminating.
  - rewrite H1, H2. split; [reflexivity | apply ShutdownAndWait_shutter].
Qed.

End LifecycleFacts.

(** ** Registering backup modules *)

Section RegistryFacts.
Import Operator Registry.

Variable quote : string -> string.
Variable describe : BackupModule -> string.
Variable rangeOrder : forall A : Type, gmap string A -> list (string * A).
Hypothesis rangeOrder_enumerates :
  forall (A : Type) (m : gmap string A), rangeOrder A m ≡ₚ map_to_list m.

Local Abbreviation RegisterBackupModule := (RegisterBackupModule quote describe).
Local Abbreviation registerAll := (registerAll quote describe).

Lemma RegisterBackupModule_mods (name : string) (m : BackupModule) (o : Operator) :
  modsOf (fst (RegisterBackupModule name m o))
  = match modsOf o !! name with
    | Some _ => modsOf o
    | None => <[name := m]> (modsOf o)
    end.
Proof.
  unfold Registry.RegisterBackupModule.
  destruct (modsOf o !! name); reflexivity.
Qed.

(** The modules after a sequence of registrations. *)
Lemma registerAll_mods (l : list (string * BackupModule)) (o : Operator) :
  modsOf (registerAll l o) = modsOf o ∪ list_to_map l.
Proof.
  revert o. induction l as [|[k m] l IH]; intros o.
  - cbn. rewrite (right_id_L ∅ (∪)). reflexivity.
  - change (registerAll ((k, m) :: l) o)
      with (registerAll l (fst (RegisterBackupModule k m o))).
    rewrite IH, RegisterBackupModule_mods, list_to_map_cons.
    destruct (modsOf o !! k) as [existing|] eqn:E.
    + apply map_eq. intros i. rewrite !lookup_union.
      destruct (decide (i = k)) as [->|Hne].
      * rewrite E, lookup_insert_eq. destruct (list_to_map l !! k); reflexivity.
      * rewrite lookup_insert_ne by congruence. reflexivity.
    + rewrite <- insert_union_l. rewrite insert_union_r by exact E. reflexivity.
Qed.

(** After any sequence of registrations each name stands for the first
    module registered under it, a module already there included: a later
    registration under a taken name changes nothing, and the modules no
    longer depend on the registrations that were refused. *)
Theorem registerAll_first_registration_wins
    (l : list (string * BackupModule)) (o : Operator) (name : string) :
  modsOf (registerAll l o) !! name
  = match modsOf o !! name with
    | Some m => Some m
    | None => snd <$> head (filter (fun km => km.1 = name) l)
    end.
Proof.
  rewrite registerAll_mods, lookup_union.
  destruct (modsOf o !! name) as [m|] eqn:E.
  - destruct (list_to_map l !! name); reflexivity.
  - rewrite (left_id_L None union). clear E.
    induction l as [|[k m] l IH]; [reflexivity|].
    rewrite list_to_map_cons, filter_cons. cbn [fst].
    destruct (decide (k = name)) as [->|Hne].
    + rewrite lookup_insert_eq. reflexivity.
    + rewrite lookup_insert_ne by exact Hne. exact IH.
Qed.

(** A registration fails exactly when the name is taken, and then it
    reports an error and leaves both the modules and the schedules as they
    were. *)
Theorem RegisterBackupModule_rejects_exactly_duplicates
    (name : string) (m : BackupModule) (o : Operator) :
  (snd (RegisterBackupModule name m o) = None <-> modsOf o !! name = None)
  /\ (snd (RegisterBackupModule name m o) <> None ->
      modsOf (fst (RegisterBackupModule name m o)) = modsOf o)
  /\ backupSchedules (fst (RegisterBackupModule name m o)) = backupSchedules o.
Proof.
  unfold Registry.RegisterBackupModule.
  destruct (modsOf o !! name) eqn:E; cbn.
  - repeat split; auto; discriminate.
  - repeat split; auto. intros H. congruence.
Qed.

(** Modules registered under different names in a fresh operator are
    found again: each one registered under a name that is not empty is what
    [selectBackupModule] returns for that name, and a module registered
    alone is what it returns for no name. *)
Theorem registered_modules_are_selected (l : list (string * BackupModule)) :
  NoDup l.*1 ->
  (forall name m, (name, m) ∈ l -> name <> "" ->
                  selectBackupModule rangeOrder
                    (modsOf (registerAll l newOperator)) name = Ok m)
  /\ (forall name m, l = [(name, m)] ->
                     selectBackupModule rangeOrder
                       (modsOf (registerAll l newOperator)) "" = Ok m).
Proof.
  intros Hnd.
  assert (Hmods : modsOf (registerAll l newOperator) = list_to_map l).
  { rewrite registerAll_mods. cbn.
    apply (left_id_L ∅ (∪)). }
  rewrite Hmods. split.
  - intros name m Hin Hne.
    assert (Hl : (list_to_map l : gmap string BackupModule) !! name = Some m)
      by (apply elem_of_list_to_map; assumption).
    unfold selectBackupModule. rewrite (size_lookup_Some _ _ _ Hl).
    apply String.eqb_neq in Hne. rewrite Hne, Hl. reflexivity.
  - intros name m ->. rewrite list_to_map_cons, list_to_map_nil, insert_empty.
    unfold selectBackupModule. rewrite map_size_singleton. cbn.
    rewrite (rangeOrder_singleton rangeOrder rangeOrder_enumerates).
    reflexivity.
Qed.

End RegistryFacts.

(** ** More on backup schedules *)

Section MoreScheduleFacts.
Import Operator Decimal.

Variable ParseDuration : string -> result Z.

Lemma digitOf_bound (c : Ascii.ascii) (d : N) : digitOf c = Some d -> (d <= 9)%N.
Proof.
  unfold digitOf.
  destruct ((48 <=? Ascii.N_of_ascii c)%N && (Ascii.N_of_ascii c <=? 57)%N) eqn:E;
    [|discriminate].
  apply andb_true_iff in E as [H1 H2].
  apply N.leb_le in H1, H2. intros [= <-]. lia.
Qed.

Lemma valueFrom_ge (s : string) : forall acc, (acc <= valueFrom acc s)%N.
Proof.
  induction s as [|c s IH]; intros acc; cbn [valueFrom]; [lia|].
  etransitivity; [|apply IH]. lia.
Qed.

(** [parseUintFrom] accepts exactly the strings of digits whose value stays
    within 64 bits, and returns that value. *)
Lemma parseUintFrom_spec (s : string) :
  forall acc n,
    parseUintFrom acc s = Ok n
    <-> allDigits s = true /\ valueFrom acc s = n /\ (n <= maxUint64)%N
        /\ (acc <= maxUint64)%N \/ (s = "" /\ n = acc).
Proof.
  induction s as [|c s IH]; intros acc n;
    cbn [parseUintFrom allDigits valueFrom].
  - split.
    + intros [= ->]. right. auto.
    + intros [(_ & -> & _)|[_ ->]]; reflexivity.
  - unfold isDigit. destruct (digitOf c) as [d|] eqn:Ed.
    2:{ split; [discriminate|]. intros [(H & _)|[H _]]; discriminate. }
    pose proof (digitOf_bound c d Ed) as Hd.
    unfold maxUint64 in *.
    change (2 ^ 64 - 1)%N with 18446744073709551615%N in *.
    change (18446744073709551615 / 10 + 1)%N with 1844674407370955162%N.
    destruct (1844674407370955162 <=? acc)%N eqn:E1.
    { apply N.leb_le in E1. split; [discriminate|].
      intros [(_ & Hv & Hn & _)|[H _]]; [|discriminate].
      pose proof (valueFrom_ge s (acc * 10 + d)%N). lia. }
    apply N.leb_gt in E1.
    destruct (18446744073709551615 <? acc * 10 + d)%N eqn:E2.
    { apply N.ltb_lt in E2. split; [discriminate|].
      intros [(_ & Hv & Hn & _)|[H _]]; [|discriminate].
      pose proof (valueFrom_ge s (acc * 10 + d)%N). lia. }
    apply N.ltb_ge in E2. rewrite IH. cbn [andb]. split.
    + intros [(Ha & Hv & Hn & _)|[-> ->]].
      * left. repeat split; auto. lia.
      * left. cbn. repeat split; auto. lia.
    + intros [(Ha & Hv & Hn & _)|[H _]]; [|discriminate].
      left. repeat split; auto.
Qed.

Lemma ParseUint_spec (s : string) (n : N) :
  ParseUint s = Ok n
  <-> s <> "" /\ allDigits s = true /\ decimalValue s = n /\ (n <= maxUint64)%N.
Proof.
  unfold ParseUint, decimalValue. destruct (String.eqb_spec s "") as [->|Hne].
  - split; [discriminate|]. intros [H _]. congruence.
  - rewrite parseUintFrom_spec. split.
    + intros [(Ha & Hv & Hn & _)|[H _]]; [|congruence]. auto.
    + intros (_ & Ha & Hv & Hn). left. repeat split; auto.
      vm_compute. discriminate.
Qed.

Lemma intOfUint64_nonzero (n : N) :
  n <> 0%N -> (n <= maxUint64)%N -> intOfUint64 n <> 0%Z.
Proof.
  unfold intOfUint64, maxUint64, maxInt. intros Hn Hle.
  assert (Z.of_N n <= Z.of_N (2 ^ 64 - 1))%Z as H by lia.
  change (Z.of_N (2 ^ 64 - 1)) with (2 ^ 64 - 1)%Z in H.
  destruct (Z.of_N n <=? 2 ^ 63 - 1)%Z; lia.
Qed.

(** A schedule that [NewBackupSchedule] returns has exactly one of its two
    frequencies set: either a block frequency other than zero and no time
    frequency, from a [freqBlocks] that is not empty, or no block frequency
    and a time frequency of a minute at least, from an empty [freqBlocks];
    the hostname and the backuper name are those given. *)
Theorem NewBackupSchedule_sets_one_frequency
    (freqBlocks freqTime host name : string) (sched : BackupSchedule) :
  NewBackupSchedule ParseDuration freqBlocks freqTime host name = Ok sched ->
  (freqBlocks <> "" /\ BlocksBetweenRuns sched <> 0%Z
   /\ TimeBetweenRuns sched = 0%Z
   \/ freqBlocks = "" /\ BlocksBetweenRuns sched = 0%Z
      /\ (Minute <= TimeBetweenRuns sched)%Z)
  /\ RequiredHostnameMatch sched = host
  /\ BackuperName sched = name.
Proof.
  unfold NewBackupSchedule.
  destruct (String.eqb_spec freqBlocks "") as [->|Hne]; cbn [negb].
  - destruct (String.eqb freqTime ""); cbn [negb]; [discriminate|].
    destruct (ParseDuration freqTime) as [d|e]; [|discriminate].
    destruct (d <? Minute)%Z eqn:E; [discriminate|].
    apply Z.ltb_ge in E. intros [= <-]. cbn. auto.
  - destruct (ParseUint freqBlocks) as [n|e] eqn:Ep; [|discriminate].
    destruct (n =? 0)%N eqn:E; [discriminate|].
    apply N.eqb_neq in E. intros [= <-]. cbn.
    split; [|auto]. left. repeat split; auto.
    apply intOfUint64_nonzero; [exact E|].
    apply ParseUint_spec in Ep. tauto.
Qed.

(** A [freqBlocks] that is not empty decides alone: the result is the
    same whatever [freqTime] is and however durations are parsed, also when
    [freqBlocks] is refused and [freqTime] would have been accepted. *)
Theorem NewBackupSchedule_block_frequency_comes_first
    (ParseDuration' : string -> result Z)
    (freqBlocks freqTime freqTime' host name : string) :
  freqBlocks <> "" ->
  NewBackupSchedule ParseDuration freqBlocks freqTime host name
  = NewBackupSchedule ParseDuration' freqBlocks freqTime' host name.
Proof.
  intros Hne. unfold NewBackupSchedule.
  apply String.eqb_neq in Hne. rewrite Hne. reflexivity.
Qed.

(** With a [freqBlocks] that is not empty, [NewBackupSchedule] succeeds
    exactly when [freqBlocks] consists of decimal digits only and writes a
    number from 1 to [2^64 - 1]: no sign, no blank, no unit. *)
Theorem NewBackupSchedule_accepts_decimal_block_frequencies
    (freqBlocks freqTime host name : string) :
  freqBlocks <> "" ->
  ((exists sched,
       NewBackupSchedule ParseDuration freqBlocks freqTime host name = Ok sched)
   <-> allDigits freqBlocks = true
       /\ (1 <= decimalValue freqBlocks <= maxUint64)%N).
Proof.
  intros Hne. unfold NewBackupSchedule.
  pose proof (ParseUint_spec freqBlocks) as Hspec.
  apply String.eqb_neq in Hne as Hb. rewrite Hb. cbn [negb].
  destruct (ParseUint freqBlocks) as [n|e] eqn:Ep.
  - destruct (proj1 (Hspec n) eq_refl) as (_ & Ha & Hv & Hn).
    destruct (n =? 0)%N eqn:E.
    + apply N.eqb_eq in E. split; [intros [sched H]; discriminate|].
      intros (_ & H1 & _). lia.
    + apply N.eqb_neq in E. split; [|eauto].
      intros _. split; [exact Ha|]. lia.
  - split; [intros [sched H]; discriminate|].
    intros (Ha & H1 & H2).
    assert (@Err N e = Ok (decimalValue freqBlocks)) as H
      by (apply Hspec; auto).
    discriminate H.
Qed.

Lemma digitOf_pretty (x : N) : (x < 10)%N -> digitOf (pretty_N_char x) = Some x.
Proof.
  intros H.
  assert (x = 0 \/ x = 1 \/ x = 2 \/ x = 3 \/ x = 4 \/ x = 5 \/ x = 6
          \/ x = 7 \/ x = 8 \/ x = 9)%N as Hx by lia.
  repeat (destruct Hx as [->|Hx]; [reflexivity|]). subst. reflexivity.
Qed.

Lemma pretty_N_go_digits (x : N) :
  forall s,
    allDigits (pretty_N_go x s) = allDigits s
    /\ valueFrom 0 (pretty_N_go x s) = valueFrom x s.
Proof.
  induction (N.lt_wf_0 x) as [x _ IH]. intros s.
  destruct (decide (x = 0)%N) as [->|Hx].
  - rewrite pretty_N_go_0. auto.
  - rewrite pretty_N_go_step by lia.
    assert (Hlt : (x `div` 10 < x)%N) by (apply N.div_lt; lia).
    destruct (IH _ Hlt (String (pretty_N_char (x `mod` 10)) s)) as [Ha Hv].
    assert (Hm : (x `mod` 10 < 10)%N) by (apply N.mod_lt; lia).
    rewrite Ha, Hv. cbn [allDigits valueFrom]. unfold isDigit.
    rewrite (digitOf_pretty _ Hm). cbn [andb]. split; [reflexivity|].
    f_equal. pose proof (N.div_mod' x 10). lia.
Qed.

(** The decimal form of a number from 1 to the largest [int] is read back
    as that number: the schedule built from it has this block frequency. *)
Theorem NewBackupSchedule_reads_back_decimal
    (n : N) (freqTime host name : string) :
  (1 <= n)%N -> (Z.of_N n <= maxInt)%Z ->
  NewBackupSchedule ParseDuration (pretty n) freqTime host name
  = Ok {| BlocksBetweenRuns := Z.of_N n; TimeBetweenRuns := 0;
          RequiredHostnameMatch := host; BackuperName := name |}.
Proof.
  intros H1 Hmax.
  assert (Hp : ParseUint (pretty n) = Ok n).
  { apply ParseUint_spec. unfold pretty, pretty_N.
    destruct (decide (n = 0)%N) as [->|_]; [lia|].
    destruct (pretty_N_go_digits n "") as [Ha Hv].
    split; [|split; [exact Ha|split; [exact Hv|]]].
    - intros H. apply (f_equal decimalValue) in H.
      unfold decimalValue in H. rewrite Hv in H. cbn in H. lia.
    - unfold maxUint64, maxInt in *.
      assert (Z.of_N n <= Z.of_N (2 ^ 64 - 1))%Z; [|lia].
      change (Z.of_N (2 ^ 64 - 1)) with (2 ^ 64 - 1)%Z. lia. }
  unfold NewBackupSchedule.
  destruct (String.eqb_spec (pretty n) "") as [E|_].
  { rewrite E in Hp. discriminate. }
  cbn [negb]. rewrite Hp.
  assert ((n =? 0)%N = false) as -> by (apply N.eqb_neq; lia).
  unfold intOfUint64. apply Z.leb_le in Hmax. rewrite Hmax. reflexivity.
Qed.

End MoreScheduleFacts.

(** ** Block numbers in block ids *)

Section BlockIdFacts.
Import BlockId.

Lemma land_shifted_low (b a k : N) :
  (a < 2 ^ k)%N -> N.land (b * 2 ^ k) a = 0%N.
Proof.
  intros Ha. apply N.bits_inj. intros m.
  rewrite N.land_spec, N.bits_0.
  destruct (N.lt_ge_cases m k) as [Hm|Hm].
  - rewrite N.mul_pow2_bits_low by exact Hm. reflexivity.
  - destruct (N.eq_dec a 0%N) as [->|Hne].
    + rewrite N.bits_0. apply andb_false_r.
    + rewrite (N.bits_above_log2 a m); [apply andb_false_r|].
      apply N.lt_le_trans with k; [|exact Hm].
      apply N.log2_lt_pow2; [lia | exact Ha].
Qed.

(** Putting a number below [2^k] under a number shifted by [k] adds them. *)
Lemma lor_shiftl_low (b a k : N) :
  (a < 2 ^ k)%N -> N.lor a (N.shiftl b k) = (b * 2 ^ k + a)%N.
Proof.
  intros Ha. rewrite N.shiftl_mul_pow2, N.lor_comm.
  pose proof (land_shifted_low b a k Ha) as H.
  rewrite <- N.lxor_lor by exact H.
  rewrite <- N.add_nocarry_lxor by exact H. reflexivity.
Qed.

Lemma fromHexChar_bound (c : Ascii.ascii) (d : N) :
  fromHexChar c = Some d -> (d < 16)%N.
Proof.
  unfold fromHexChar.
  repeat match goal with
         | |- context [if ?b then _ else _] =>
           let E := fresh "E" in
           destruct b eqn:E;
           [apply andb_true_iff in E as [?%N.leb_le ?%N.leb_le];
            intros [= <-]; lia|]
         end.
  discriminate.
Qed.

Lemma hex_byte (a b : N) :
  (a < 16)%N -> (b < 16)%N -> N.lor (N.shiftl a 4) b = (a * 16 + b)%N.
Proof.
  intros Ha Hb. rewrite N.lor_comm, (lor_shiftl_low a b 4) by exact Hb.
  reflexivity.
Qed.

Lemma Uint32_value (b0 b1 b2 b3 : N) :
  (b0 < 256)%N -> (b1 < 256)%N -> (b2 < 256)%N -> (b3 < 256)%N ->
  Uint32 [b0; b1; b2; b3]
  = (((b0 * 256 + b1) * 256 + b2) * 256 + b3)%N.
Proof.
  intros H0 H1 H2 H3. unfold Uint32.
  rewrite (lor_shiftl_low b2 b3 8) by exact H3.
  rewrite (lor_shiftl_low b1 _ 16)
    by (change (2 ^ 16)%N with 65536%N; change (2 ^ 8)%N with 256%N; lia).
  rewrite (lor_shiftl_low b0 _ 24)
    by (change (2 ^ 24)%N with 16777216%N; change (2 ^ 16)%N with 65536%N;
        change (2 ^ 8)%N with 256%N; lia).
  change (2 ^ 24)%N with 16777216%N. change (2 ^ 16)%N with 65536%N.
  change (2 ^ 8)%N with 256%N. lia.
Qed.

(** [toBlockNum] reads the first eight characters of a block id as a
    hexadecimal number, the first digit counting most, whatever follows
    them. *)
Theorem toBlockNum_reads_eight_hex_digits
    (cs : list Ascii.ascii) (ds : list N) (rest : string) :
  length cs = 8%nat ->
  Forall2 (fun c d => fromHexChar c = Some d) cs ds ->
  toBlockNum (String.string_of_list_ascii cs +:+ rest) = hexValue ds
  /\ (hexValue ds < 2 ^ 32)%N.
Proof.
  intros Hlen Hds.
  do 8 (destruct cs as [|?c cs]; [discriminate Hlen|]).
  destruct cs; [|discriminate Hlen]. clear Hlen.
  repeat match goal with
         | H : Forall2 _ (_ :: _) _ |- _ =>
           apply Forall2_cons_inv_l in H as (?d & ?ds & ?Hd & H & ->)
         | H : Forall2 _ [] _ |- _ => apply Forall2_nil_inv_l in H as ->
         end.
  repeat match goal with
         | H : fromHexChar _ = Some _ |- _ =>
           pose proof (fromHexChar_bound _ _ H); revert H
         end.
  intros E7 E6 E5 E4 E3 E2 E1 E0.
  assert (Hv : toBlockNum (String.string_of_list_ascii [c; c0; c1; c2; c3; c4; c5; c6]
                           +:+ rest)
               = Uint32 [N.lor (N.shiftl d 4) d0; N.lor (N.shiftl d1 4) d2;
                         N.lor (N.shiftl d3 4) d4; N.lor (N.shiftl d5 4) d6]).
  { unfold toBlockNum.
    change (String.string_of_list_ascii [c; c0; c1; c2; c3; c4; c5; c6] +:+ rest)
      with (String c (String c0 (String c1 (String c2 (String c3
              (String c4 (String c5 (String c6 rest)))))))).
    cbn -[N.lor N.shiftl fromHexChar Uint32].
    assert (String.substring 0 0 rest = "") as -> by (destruct rest; reflexivity).
    rewrite E0, E1, E2, E3, E4, E5, E6, E7. reflexivity. }
  rewrite Hv, !hex_byte by assumption.
  rewrite Uint32_value by lia.
  unfold hexValue. cbn [foldl].
  change (2 ^ 32)%N with 4294967296%N. lia.
Qed.

Lemma substring_length (m : nat) :
  forall s : string,
    (m <= String.length s)%nat -> String.length (String.substring 0 m s) = m.
Proof.
  induction m as [|m IH]; intros [|c s] H; cbn in *; try reflexivity; try lia.
  rewrite IH by lia. reflexivity.
Qed.

Lemma DecodeString_bytes (n : nat) :
  forall (s : string) (bytes : list N),
    (String.length s <= n)%nat ->
    DecodeString s = Ok bytes ->
    Forall (fun b => (b < 256)%N) bytes
    /\ String.length s = (2 * length bytes)%nat.
Proof.
  induction n as [|n IH]; intros [|p [|q s]] bytes Hn; cbn [DecodeString].
  - intros [= <-]. auto.
  - cbn in Hn. lia.
  - cbn in Hn. lia.
  - intros [= <-]. auto.
  - destruct (fromHexChar p); discriminate.
  - destruct (fromHexChar p) as [a|] eqn:Ea; [|discriminate].
    destruct (fromHexChar q) as [b|] eqn:Eb; [|discriminate].
    destruct (DecodeString s) as [rest|e] eqn:Es; [|discriminate].
    intros [= <-]. cbn in Hn.
    destruct (IH s rest) as [Hf Hl]; [lia | exact Es |].
    pose proof (fromHexChar_bound _ _ Ea). pose proof (fromHexChar_bound _ _ Eb).
    split.
    + constructor; [|exact Hf]. rewrite hex_byte by assumption. lia.
    + cbn. rewrite Hl. lia.
Qed.

(** A character that is no hexadecimal digit makes [DecodeString] fail,
    wherever it stands. *)
Lemma DecodeString_invalid (n : nat) :
  forall (s : string) (c : Ascii.ascii),
    (String.length s <= n)%nat ->
    In c (String.list_ascii_of_string s) ->
    fromHexChar c = None ->
    exists e, DecodeString s = Err e.
Proof.
  induction n as [|n IH]; intros [|p [|q s]] c Hn Hin Hc;
    cbn [DecodeString]; cbn in Hn, Hin; try contradiction; try lia.
  - destruct Hin as [<-|[]]. rewrite Hc. eauto.
  - destruct (fromHexChar p) as [a|] eqn:Ea; [|eauto].
    destruct (fromHexChar q) as [b|] eqn:Eb; [|eauto].
    destruct Hin as [<-|[<-|Hin]]; [congruence | congruence |].
    destruct (IH s c) as [e ->]; [lia | exact Hin | exact Hc |]. eauto.
Qed.

(** Whatever the block id, [toBlockNum] gives a number of 32 bits, so that
    its conversion to [uint64] loses nothing; and it gives 0 for an id of
    fewer than eight characters and for an id one of whose first eight
    characters is no hexadecimal digit. *)
Theorem toBlockNum_fits_32_bits (blockID : string) :
  (toBlockNum blockID < 2 ^ 32)%N
  /\ ((String.length blockID < 8)%nat -> toBlockNum blockID = 0%N)
  /\ (forall c,
        In c (String.list_ascii_of_string (String.substring 0 8 blockID)) ->
        fromHexChar c = None ->
        toBlockNum blockID = 0%N).
Proof.
  unfold toBlockNum. change (2 ^ 32)%N with 4294967296%N.
  destruct (String.length blockID <? 8)%nat eqn:El.
  { split; [lia|]. split; [reflexivity|]. intros _ _ _. reflexivity. }
  apply Nat.ltb_ge in El.
  split; [|split].
  - destruct (DecodeString (String.substring 0 8 blockID)) as [bin|e] eqn:Ed;
      [|lia].
    destruct (DecodeString_bytes 8 (String.substring 0 8 blockID) bin)
      as [Hf Hl];
      [rewrite substring_length by exact El; lia | exact Ed |].
    rewrite substring_length in Hl by exact El.
    do 4 (destruct bin as [|?b bin]; [cbn in Hl; lia|]).
    destruct bin; [|cbn in Hl; lia].
    repeat match goal with
           | H : Forall _ (_ :: _) |- _ => apply Forall_cons in H as [? H]
           end.
    rewrite Uint32_value by assumption. lia.
  - lia.
  - intros c Hin Hc.
    destruct (DecodeString_invalid 8 (String.substring 0 8 blockID) c)
      as [e ->]; [rewrite substring_length by exact El; lia | exact Hin
                  | exact Hc | reflexivity].
Qed.

End BlockIdFacts.

(** ** The further statements on the sample collaborators *)

Section MoreOnSamples.
Import Gator MindReader Operator Trace Lifecycle Registry Decimal BlockId.

Local Abbreviation cFlow :=
  (consumeReadFlow Sample.storeBlock Sample.waitForAllFilesToUpload
                   Sample.continuityWrite Sample.pushBlock).
Local Abbreviation upload :=
  (alwaysUploadFiles (Obj := Block) (CheckSt := N) (ServSt := unit)
                     MoreSamples.uploadFiles).

(** Without a stop block the three reads start no shutdown. *)
Lemma ReadFlow_starts_no_shutdown_witness :
  exists added,
    events (snd (fst (ReadFlow MoreSamples.threeReads (Sample.plugin 0 0 None))))
    = added
    /\ goShutdownsIn added = [] /\ shutdownsIn added = [].
Proof.
  apply (ReadFlow_starts_no_shutdown MoreSamples.threeReads
           (Sample.plugin 0 0 None)).
  left. reflexivity.
Defined.

(** Told to stop with one block queued, the consume task returns with the
    channel empty. *)
Lemma consumeReadFlow_returns_terminating_and_drained_witness :
  IsTerminating
    (snd (fst (cFlow MoreSamples.stopWithOneQueued (Sample.plugin 0 0 None)
                     [blockN 1]))) = true
  /\ (snd (cFlow MoreSamples.stopWithOneQueued (Sample.plugin 0 0 None)
                 [blockN 1]) = []
      \/ exists e,
          last (shutdownsIn
                  (events (snd (fst (cFlow MoreSamples.stopWithOneQueued
                                           (Sample.plugin 0 0 None)
                                           [blockN 1])))))
          = Some (Some e)).
Proof.
  apply (consumeReadFlow_returns_terminating_and_drained
           Sample.storeBlock Sample.waitForAllFilesToUpload
           Sample.continuityWrite Sample.pushBlock
           MoreSamples.stopWithOneQueued (Sample.plugin 0 0 None) [blockN 1]).
  reflexivity.
Defined.

(** While the loop is running, what was stored and what is queued make up
    what the channel held and received. *)
Lemma consumeReadFlow_stores_in_channel_order_witness :
  exists added,
    events (snd (fst (cFlow [TakeBlock; Enqueued (blockN 3)]
                            (Sample.plugin 0 0 None) [blockN 1; blockN 2])))
    = added
    /\ storedIn added
       ++ snd (cFlow [TakeBlock; Enqueued (blockN 3)]
                     (Sample.plugin 0 0 None) [blockN 1; blockN 2])
       = [blockN 1; blockN 2; blockN 3].
Proof.
  destruct (consumeReadFlow_stores_in_channel_order
              Sample.storeBlock Sample.waitForAllFilesToUpload
              Sample.continuityWrite Sample.pushBlock
              [TakeBlock; Enqueued (blockN 3)]
              (Sample.plugin 0 0 None) [blockN 1; blockN 2])
    as (added & E & _ & Hrun).
  exists added. split; [exact E|]. apply Hrun. reflexivity.
Defined.

(** A plugin with neither checker nor server whose archiver fails on
    block 13: the one call of the maintenance callback is that of the
    hook; and a plugin without the hook is not left blocked. *)
Lemma consumeReadFlow_without_checker_or_server_witness :
  (exists added,
      events (snd (fst (cFlow [TakeBlock; TakeBlock] MoreSamples.bareHooked
                              [blockN 12; blockN 13])))
      = added
      /\ fst (fst (cFlow [TakeBlock; TakeBlock] MoreSamples.bareHooked
                         [blockN 12; blockN 13])) = Blocked
      /\ maintenanceIn added = 1%nat /\ pushedIn added = [])
  /\ fst (fst (cFlow [TakeBlock] (Sample.plugin 0 0 None) [blockN 13]))
     <> Blocked.
Proof.
  split.
  - destruct (consumeReadFlow_without_checker_or_server
                Sample.storeBlock Sample.waitForAllFilesToUpload
                Sample.continuityWrite Sample.pushBlock
                [TakeBlock; TakeBlock] MoreSamples.bareHooked
                [blockN 12; blockN 13])
      as (added & E & Hc & _ & Hb).
    exists added. split; [exact E|]. split; [reflexivity|].
    split; [apply Hc | apply Hb]; reflexivity.
  - destruct (consumeReadFlow_without_checker_or_server
                Sample.storeBlock Sample.waitForAllFilesToUpload
                Sample.continuityWrite Sample.pushBlock
                [TakeBlock] (Sample.plugin 0 0 None) [blockN 13])
      as (added & _ & _ & Hk & _).
    apply Hk. reflexivity.
Defined.

(** The uploader returns once a shutdown has come, and does nothing on a
    plugin that is terminating. *)
Lemma alwaysUploadFiles_returns_only_terminating_witness :
  IsTerminating
    (snd (fst (upload [TimerFires; ShutdownMeanwhile None; TimerFires]
                      (Sample.plugin 0 0 None)))) = true
  /\ upload [TimerFires]
            (setShutter (shutterShutdown None shutterNew)
                        (Sample.plugin 0 0 None))
     = (Returned,
        setShutter (shutterShutdown None shutterNew) (Sample.plugin 0 0 None),
        0%nat).
Proof.
  split.
  - apply (proj1 (alwaysUploadFiles_returns_only_terminating
                    MoreSamples.uploadFiles
                    [TimerFires; ShutdownMeanwhile None; TimerFires]
                    (Sample.plugin 0 0 None))).
    reflexivity.
  - apply (proj2 (alwaysUploadFiles_returns_only_terminating
                    MoreSamples.uploadFiles [TimerFires]
                    (setShutter (shutterShutdown None shutterNew)
                                (Sample.plugin 0 0 None)))).
    reflexivity.
Defined.

(** Uploads that always fail are tried again at every firing of the
    timer. *)
Lemma alwaysUploadFiles_keeps_uploading_witness :
  exists p',
    upload [TimerFires; TakeTermination; TimerFires] (Sample.plugin 0 0 None)
    = (Running, p', 3%nat)
    /\ shutter p' = shutterNew /\ events p' = []
    /\ archiver p' = tt.
Proof.
  apply (alwaysUploadFiles_keeps_uploading MoreSamples.uploadFiles
           [TimerFires; TakeTermination; TimerFires] (Sample.plugin 0 0 None));
    reflexivity.
Defined.

(** Two lines on a fresh pipe. *)
Lemma LogLine_writes_each_line_in_order_witness :
  written (fst (logLines ["DMLOG a"; "DMLOG b"]
                         (pipeNew, Sample.plugin 0 0 None)))
  = ["DMLOG a" +:+ String (Ascii.ascii_of_nat 10) "";
     "DMLOG b" +:+ String (Ascii.ascii_of_nat 10) ""].
Proof.
  rewrite (LogLine_writes_each_line_in_order
             ["DMLOG a"; "DMLOG b"] pipeNew (Sample.plugin 0 0 None) eq_refl).
  reflexivity.
Defined.

(** Two modules under two names, and one module alone. *)
Lemma registered_modules_are_selected_witness :
  selectBackupModule Sample.rangeOrder
    (modsOf (registerAll id (fun _ => "module")
                         [("tar", Sample.tarModule);
                          ("snapshot", Sample.snapshotModule)]
                         newOperator))
    "snapshot"
  = Ok Sample.snapshotModule
  /\ selectBackupModule Sample.rangeOrder
       (modsOf (registerAll id (fun _ => "module")
                            [("tar", Sample.tarModule)] newOperator))
       ""
     = Ok Sample.tarModule.
Proof.
  split.
  - apply (proj1 (registered_modules_are_selected
                    id (fun _ => "module") Sample.rangeOrder
                    (fun A m => reflexivity (map_to_list m))
                    [("tar", Sample.tarModule);
                     ("snapshot", Sample.snapshotModule)]
                    ltac:(cbn; repeat constructor; rewrite ?list_elem_of_In; cbn; intuition discriminate))).
    + set_solver.
    + discriminate.
  - apply (proj2 (registered_modules_are_selected
                    id (fun _ => "module") Sample.rangeOrder
                    (fun A m => reflexivity (map_to_list m))
                    [("tar", Sample.tarModule)]
                    ltac:(cbn; repeat constructor; rewrite ?list_elem_of_In; cbn; intuition discriminate))
                 "tar").
    reflexivity.
Defined.

(** The schedule for every 100 blocks. *)
Lemma NewBackupSchedule_sets_one_frequency_witness :
  ("100" <> "" /\ (100 <> 0)%Z /\ 0%Z = 0%Z
   \/ "100" = "" /\ 100%Z = 0%Z /\ (Minute <= 0)%Z)
  /\ "" = "" /\ "tar" = "tar".
Proof.
  apply (NewBackupSchedule_sets_one_frequency Sample.ParseDuration
           "100" "" "" "tar"
           {| BlocksBetweenRuns := 100; TimeBetweenRuns := 0;
              RequiredHostnameMatch := ""; BackuperName := "tar" |}).
  vm_compute. reflexivity.
Defined.

(** A refused block frequency is not rescued by a good time frequency. *)
Lemma NewBackupSchedule_block_frequency_comes_first_witness :
  NewBackupSchedule Sample.ParseDuration "soon" "1m" "" "tar"
  = NewBackupSchedule (fun _ => Err errSyntax) "soon" "" "" "tar".
Proof.
  apply (NewBackupSchedule_block_frequency_comes_first
           Sample.ParseDuration (fun _ => Err errSyntax) "soon" "1m" "" "" "tar").
  discriminate.
Defined.

(** ["100"] is accepted. *)
Lemma NewBackupSchedule_accepts_decimal_block_frequencies_witness :
  exists sched,
    NewBackupSchedule Sample.ParseDuration "100" "" "" "tar" = Ok sched.
Proof.
  apply (NewBackupSchedule_accepts_decimal_block_frequencies
           Sample.ParseDuration "100" "" "" "tar"); [discriminate|].
  vm_compute. repeat split; discriminate.
Defined.

(** The decimal form of 250 is read back as 250. *)
Lemma NewBackupSchedule_reads_back_decimal_witness :
  NewBackupSchedule Sample.ParseDuration (pretty 250%N) "" "" "tar"
  = Ok {| BlocksBetweenRuns := 250; TimeBetweenRuns := 0;
          RequiredHostnameMatch := ""; BackuperName := "tar" |}.
Proof.
  apply (NewBackupSchedule_reads_back_decimal Sample.ParseDuration
           250%N "" "" "tar").
  - lia.
  - vm_compute. discriminate.
Defined.

(** The id of the second block of the tests. *)
Lemma toBlockNum_reads_eight_hex_digits_witness :
  toBlockNum "00000002a" = 2%N /\ (2 < 2 ^ 32)%N.
Proof.
  apply (toBlockNum_reads_eight_hex_digits
           (String.list_ascii_of_string "00000002")
           [0; 0; 0; 0; 0; 0; 0; 2]%N "a").
  - reflexivity.
  - repeat constructor.
Defined.

(** An id that is too short, and one with a letter that is no digit. *)
Lemma toBlockNum_fits_32_bits_witness :
  toBlockNum "0000002" = 0%N /\ toBlockNum "0000g002a" = 0%N.
Proof.
  split.
  - apply (proj1 (proj2 (toBlockNum_fits_32_bits "0000002"))). cbn. lia.
  - apply (proj2 (proj2 (toBlockNum_fits_32_bits "0000g002a"))
                 (Ascii.ascii_of_nat 103)).
    + cbn. tauto.
    + reflexivity.
Defined.

End MoreOnSamples.
